(** * mp3srv: a shallow embedding of [mp3.py] and its HTTP behaviour

    The program is a forty-line Python script on top of the standard
    library: it validates a root directory, changes into it and serves
    three kinds of GET request through a subclass of
    [http.server.SimpleHTTPRequestHandler].  This development embeds

    - the Python built-ins the script calls ([str.split], [str.lower],
      [str.endswith], [str.encode], [json.dumps], [urllib.parse.unquote]);
    - the process environment (a file-system tree with a working directory);
    - the handler class of the script ([do_GET], [send_html], [send_json]);
    - the inherited static file handler of CPython's [http.server]
      ([translate_path], [send_head], [list_directory], [do_GET]), following
      the library source (CPython 3.11) function by function;
    - the start-up script and the [socketserver] request loop;
    - the two things the embedded page does with the server: it reads the
      playlist as JSON and asks for an entry by [encodeURIComponent];
    - the player script of the page ([load], [next], [prev] and the
      callback of [fetch]).

    Python [str] values are sequences of Unicode code points and [bytes]
    values are sequences of octets; both are lists of [Z] here. *)

From Stdlib Require Import ZArith List String Ascii Bool Lia DecimalString.
Import ListNotations.
Local Open Scope Z_scope.
Local Open Scope list_scope.

(** ** Python strings and bytes *)

Abbreviation str := (list Z) (only parsing).
Abbreviation bytes := (list Z) (only parsing).

Definition ord (a : ascii) : Z := Z.of_N (N_of_ascii a).

Fixpoint lit (s : string) : str :=
  match s with
  | EmptyString => []
  | String a r => ord a :: lit r
  end.
Arguments lit s%_string.

(** The double quote character, which a string literal cannot hold. *)
Definition DQ : str := [34].

Fixpoint str_eqb (a b : str) : bool :=
  match a, b with
  | [], [] => true
  | x :: a', y :: b' => (x =? y) && str_eqb a' b'
  | _, _ => false
  end.

(** [c in s] for a single character [c]. *)
Definition str_contains (c : Z) (s : str) : bool := existsb (Z.eqb c) s.

(** [s.startswith(p)] *)
Fixpoint str_startswith (s p : str) {struct p} : bool :=
  match p, s with
  | [], _ => true
  | y :: p', x :: s' => (x =? y) && str_startswith s' p'
  | _ :: _, [] => false
  end.

(** [s.endswith(suffix)]: the last [len(suffix)] characters of [s] are
    compared with [suffix]. *)
Definition str_endswith (s suffix : str) : bool :=
  str_eqb (skipn (List.length s - List.length suffix) s) suffix.

(** [s.lower()].  ASCII capitals are mapped to their small letters.  Code
    points outside ASCII are left as they are: the Unicode lower-case
    mapping of a non-ASCII code point never yields one of the characters
    [.], [m], [p], [3], so the suffix test of the playlist filter does not
    see the difference. *)
Definition lower_cp (c : Z) : Z :=
  if (65 <=? c) && (c <=? 90) then c + 32 else c.

Definition str_lower (s : str) : str := map lower_cp s.

(** [s.split(sep)] for a one-character separator. *)
Fixpoint str_split (sep : Z) (s : str) : list str :=
  match s with
  | [] => [[]]
  | c :: r =>
      if c =? sep then [] :: str_split sep r
      else match str_split sep r with
           | w :: ws => (c :: w) :: ws
           | [] => [[c]]
           end
  end.

(** [s.split(sep, 1)]: at most one split, at the first separator. *)
Fixpoint str_split1 (sep : Z) (s : str) : list str :=
  match s with
  | [] => [[]]
  | c :: r =>
      if c =? sep then [[]; r]
      else match str_split1 sep r with
           | w :: ws => (c :: w) :: ws
           | [] => [[c]]
           end
  end.

(** Indexing a list of strings at [0]. *)
Definition item0 (l : list str) : str := hd [] l.

(** [sep.join(parts)] *)
Fixpoint str_join (sep : str) (parts : list str) : str :=
  match parts with
  | [] => []
  | [p] => p
  | p :: rest => p ++ sep ++ str_join sep rest
  end.

(** [str.isspace] on one code point, the set [str.rstrip()] removes. *)
Definition is_space (c : Z) : bool :=
  ((9 <=? c) && (c <=? 13)) || ((28 <=? c) && (c <=? 32))
  || (c =? 0x85) || (c =? 0xA0) || (c =? 0x1680)
  || ((0x2000 <=? c) && (c <=? 0x200A))
  || (c =? 0x2028) || (c =? 0x2029) || (c =? 0x202F)
  || (c =? 0x205F) || (c =? 0x3000).

Fixpoint lstrip (s : str) : str :=
  match s with
  | c :: r => if is_space c then lstrip r else s
  | [] => []
  end.

(** [s.rstrip()] *)
Definition str_rstrip (s : str) : str := rev (lstrip (rev s)).

(** [str(n)] for a non-negative integer. *)
Definition str_of_int (n : Z) : str :=
  lit (NilZero.string_of_uint (N.to_uint (Z.to_N n))).

(** *** UTF-8 *)

(** [s.encode()]: strict UTF-8; a surrogate (or a value that is no code
    point) raises [UnicodeEncodeError], here [None]. *)
Definition utf8_encode_cp (c : Z) : option bytes :=
  if c <? 0 then None
  else if c <? 0x80 then Some [c]
  else if c <? 0x800 then
    Some [Z.lor 0xC0 (Z.shiftr c 6); Z.lor 0x80 (Z.land c 0x3F)]
  else if c <? 0x10000 then
    if (0xD800 <=? c) && (c <=? 0xDFFF) then None
    else Some [Z.lor 0xE0 (Z.shiftr c 12);
               Z.lor 0x80 (Z.land (Z.shiftr c 6) 0x3F);
               Z.lor 0x80 (Z.land c 0x3F)]
  else if c <? 0x110000 then
    Some [Z.lor 0xF0 (Z.shiftr c 18);
          Z.lor 0x80 (Z.land (Z.shiftr c 12) 0x3F);
          Z.lor 0x80 (Z.land (Z.shiftr c 6) 0x3F);
          Z.lor 0x80 (Z.land c 0x3F)]
  else None.

Fixpoint str_encode (s : str) : option bytes :=
  match s with
  | [] => Some []
  | c :: r =>
      match utf8_encode_cp c, str_encode r with
      | Some b, Some bs => Some (b ++ bs)
      | _, _ => None
      end
  end.

(** The two error handlers [urllib.parse.unquote] is called with. *)
Inductive errors := Replace | Surrogatepass.

Definition is_cont (b : Z) : bool := (0x80 <=? b) && (b <=? 0xBF).

Definition cp2 (b0 b1 : Z) : Z :=
  Z.lor (Z.shiftl (Z.land b0 0x1F) 6) (Z.land b1 0x3F).
Definition cp3 (b0 b1 b2 : Z) : Z :=
  Z.lor (Z.shiftl (Z.land b0 0x0F) 12)
        (Z.lor (Z.shiftl (Z.land b1 0x3F) 6) (Z.land b2 0x3F)).
Definition cp4 (b0 b1 b2 b3 : Z) : Z :=
  Z.lor (Z.shiftl (Z.land b0 0x07) 18)
        (Z.lor (Z.shiftl (Z.land b1 0x3F) 12)
               (Z.lor (Z.shiftl (Z.land b2 0x3F) 6) (Z.land b3 0x3F))).

(** What the decoder finds at the head of its input: a code point that
    takes [n] bytes, or an ill-formed sequence whose first [n] bytes are in
    error (CPython reports an invalid start byte, an invalid continuation
    byte after 1, 2 or 3 good bytes, or an unexpected end of data, which
    covers everything that is left). *)
Inductive utf8_step := Good (cp : Z) (n : nat) | Bad (n : nat).

Definition second_ok (b0 b1 : Z) : bool :=
  is_cont b1
  && negb ((b0 =? 0xE0) && (b1 <? 0xA0))
  && negb ((b0 =? 0xED) && (0xA0 <=? b1))
  && negb ((b0 =? 0xF0) && (b1 <? 0x90))
  && negb ((b0 =? 0xF4) && (0x90 <=? b1)).

Definition utf8_head (b0 : Z) (r : bytes) : utf8_step :=
  if b0 <? 0x80 then Good b0 1
  else if b0 <? 0xC2 then Bad 1
  else if b0 <? 0xE0 then
    match r with
    | [] => Bad 1
    | b1 :: _ => if is_cont b1 then Good (cp2 b0 b1) 2 else Bad 1
    end
  else if b0 <? 0xF0 then
    match r with
    | [] => Bad 1
    | b1 :: r1 =>
        if negb (second_ok b0 b1) then Bad 1
        else match r1 with
             | [] => Bad 2
             | b2 :: _ => if is_cont b2 then Good (cp3 b0 b1 b2) 3 else Bad 2
             end
    end
  else if b0 <? 0xF5 then
    match r with
    | [] => Bad 1
    | b1 :: r1 =>
        if negb (second_ok b0 b1) then Bad 1
        else match r1 with
             | [] => Bad 2
             | b2 :: r2 =>
                 if negb (is_cont b2) then Bad 2
                 else match r2 with
                      | [] => Bad 3
                      | b3 :: _ =>
                          if is_cont b3 then Good (cp4 b0 b1 b2 b3) 4
                          else Bad 3
                      end
             end
    end
  else Bad 1.

(** The [surrogatepass] handler accepts the three-byte form of a surrogate
    at the place of the error and nothing else. *)
Definition surrogate_at (bs : bytes) : option Z :=
  match bs with
  | b0 :: b1 :: b2 :: _ =>
      if (Z.land b0 0xF0 =? 0xE0) && (Z.land b1 0xC0 =? 0x80)
         && (Z.land b2 0xC0 =? 0x80)
      then let c := cp3 b0 b1 b2 in
           if (0xD800 <=? c) && (c <=? 0xDFFF) then Some c else None
      else None
  | _ => None
  end.

(** [bs.decode('utf-8', errors)], [None] for [UnicodeDecodeError].  The
    fuel is the length of the input; every step consumes at least a byte. *)
Fixpoint utf8_decode_fuel (fuel : nat) (e : errors) (bs : bytes) : option str :=
  match fuel, bs with
  | _, [] => Some []
  | O, _ :: _ => Some []
  | S fuel', b0 :: r =>
      match utf8_head b0 r with
      | Good cp n => option_map (cons cp) (utf8_decode_fuel fuel' e (skipn n bs))
      | Bad n =>
          match e with
          | Replace =>
              option_map (cons 0xFFFD) (utf8_decode_fuel fuel' e (skipn n bs))
          | Surrogatepass =>
              match surrogate_at bs with
              | Some c =>
                  option_map (cons c) (utf8_decode_fuel fuel' e (skipn 3 bs))
              | None => None
              end
          end
      end
  end.

Definition bytes_decode (e : errors) (bs : bytes) : option str :=
  utf8_decode_fuel (List.length bs) e bs.

(** ** [json.dumps] on a list of strings

    [json.dumps] is called with its defaults: [ensure_ascii=True] and the
    separators [", "] and [": "].  A string goes through
    [encode_basestring_ascii]. *)

(** One digit of ['{0:04x}'.format(n)]. *)
Definition hexdigit (d : Z) : Z := if d <? 10 then 48 + d else 87 + d.

Definition hex4 (n : Z) : str :=
  [hexdigit (Z.land (Z.shiftr n 12) 15); hexdigit (Z.land (Z.shiftr n 8) 15);
   hexdigit (Z.land (Z.shiftr n 4) 15); hexdigit (Z.land n 15)].

Definition u_escape (n : Z) : str := lit "\u" ++ hex4 n.

(** The replacement of one character matched by [ESCAPE_ASCII]
    (a backslash, a double quote, or anything outside space..tilde). *)
Definition escape_char (c : Z) : str :=
  if c =? 92 then lit "\\"
  else if c =? 34 then [92; 34]
  else if c =? 8 then lit "\b"
  else if c =? 12 then lit "\f"
  else if c =? 10 then lit "\n"
  else if c =? 13 then lit "\r"
  else if c =? 9 then lit "\t"
  else if (32 <=? c) && (c <=? 126) then [c]
  else if c <? 0x10000 then u_escape c
  else let n := c - 0x10000 in
       u_escape (Z.lor 0xD800 (Z.land (Z.shiftr n 10) 0x3FF))
       ++ u_escape (Z.lor 0xDC00 (Z.land n 0x3FF)).

Definition encode_basestring_ascii (s : str) : str :=
  DQ ++ flat_map escape_char s ++ DQ.

Definition json_dumps (obj : list str) : str :=
  lit "[" ++ str_join (lit ", ") (map encode_basestring_ascii obj) ++ lit "]".

(** ** [urllib.parse.unquote] *)

Definition hexval (c : Z) : option Z :=
  if (48 <=? c) && (c <=? 57) then Some (c - 48)
  else if (65 <=? c) && (c <=? 70) then Some (c - 55)
  else if (97 <=? c) && (c <=? 102) then Some (c - 87)
  else None.

(** [unquote_to_bytes] on an ASCII string: the string is cut at every [%];
    a piece that starts with two hexadecimal digits gives the byte and the
    rest of the piece, any other piece keeps its [%]. *)
Fixpoint unquote_to_bytes (s : str) : bytes :=
  match s with
  | [] => []
  | c :: r =>
      if c =? 37 then
        match r with
        | h1 :: h2 :: r' =>
            match hexval h1, hexval h2 with
            | Some a, Some b => (16 * a + b) :: unquote_to_bytes r'
            | _, _ => 37 :: unquote_to_bytes r
            end
        | _ => 37 :: unquote_to_bytes r
        end
      else c :: unquote_to_bytes r
  end.

(** The loop over [_asciire.split(string)]: every maximal run of ASCII
    characters is unquoted to bytes and decoded, the characters between the
    runs are kept.  [run] holds the current ASCII run, last character
    first. *)
Fixpoint unquote_runs (e : errors) (run : str) (s : str) : option str :=
  match s with
  | [] => bytes_decode e (unquote_to_bytes (rev run))
  | c :: r =>
      if (0 <=? c) && (c <? 128) then unquote_runs e (c :: run) r
      else match bytes_decode e (unquote_to_bytes (rev run)),
                 unquote_runs e [] r with
           | Some d, Some rest => Some (d ++ c :: rest)
           | _, _ => None
           end
  end.

(** [urllib.parse.unquote(string, errors=e)]; [None] stands for
    [UnicodeDecodeError], which only [Surrogatepass] can raise. *)
Definition unquote_errors (e : errors) (s : str) : option str :=
  if negb (str_contains 37 s) then Some s else unquote_runs e [] s.

(** [urllib.parse.unquote(string)], with the default [errors='replace']. *)
Definition unquote (s : str) : str :=
  match unquote_errors Replace s with
  | Some r => r
  | None => s
  end.

(** ** [posixpath] *)

Definition SEP : Z := 47.
Definition curdir : str := lit ".".
Definition pardir : str := lit "..".

(** The loop of [normpath] over the components; [new_comps] is kept with
    its last element first. *)
Fixpoint normpath_comps (initial_slashes : nat) (new_comps : list str)
                        (comps : list str) : list str :=
  match comps with
  | [] => rev new_comps
  | comp :: rest =>
      if str_eqb comp [] || str_eqb comp curdir then
        normpath_comps initial_slashes new_comps rest
      else if negb (str_eqb comp pardir)
              || (Nat.eqb initial_slashes 0
                  && match new_comps with [] => true | _ => false end)
              || match new_comps with
                 | top :: _ => str_eqb top pardir
                 | [] => false
                 end
      then normpath_comps initial_slashes (comp :: new_comps) rest
      else match new_comps with
           | _ :: popped => normpath_comps initial_slashes popped rest
           | [] => normpath_comps initial_slashes new_comps rest
           end
  end.

Definition normpath (path : str) : str :=
  match path with
  | [] => curdir
  | _ =>
      let initial_slashes :=
        if str_startswith path [SEP] then
          if str_startswith path [SEP; SEP]
             && negb (str_startswith path [SEP; SEP; SEP])
          then 2%nat else 1%nat
        else 0%nat in
      let comps := normpath_comps initial_slashes [] (str_split SEP path) in
      let path' := repeat SEP initial_slashes ++ str_join [SEP] comps in
      match path' with
      | [] => curdir
      | _ => path'
      end
  end.

(** [os.path.join(a, b)] *)
Definition path_join (a b : str) : str :=
  if str_startswith b [SEP] then b
  else if str_eqb a [] || str_endswith a [SEP] then a ++ b
  else a ++ [SEP] ++ b.

(** One past the position of the last [c] in [s], [found] if there is none:
    [s.rfind(c) + 1]. *)
Fixpoint last_index (c : Z) (s : str) (i : nat) (found : nat) : nat :=
  match s with
  | [] => found
  | x :: r => last_index c r (S i) (if x =? c then S i else found)
  end.

(** [os.path.dirname(p)]: everything up to the last slash, without the
    trailing slashes unless it consists of slashes only. *)
Fixpoint lstrip_sep (s : str) : str :=
  match s with
  | c :: r => if c =? SEP then lstrip_sep r else s
  | [] => []
  end.

Definition dirname (p : str) : str :=
  let head := firstn (last_index SEP p 0 0) p in
  if forallb (Z.eqb SEP) head then head
  else rev (lstrip_sep (rev head)).

(** ** Exceptions

    The exceptions that the calls of this program raise, and the outcome of
    a call that may raise. *)

Inductive exn := OSError | ValueError | UnicodeEncodeError.

Inductive result (A : Type) :=
| Ok (a : A)
| Raise (e : exn).
Arguments Ok {A} a.
Arguments Raise {A} e.

(** ** The process environment: a file system and a working directory

    A node is a regular file (with its permission to be read, its
    modification time in seconds and its content) or a directory (with its
    permission to be listed and its entries, in the order the system
    enumerates them).  Symbolic links and the search permission of
    directories are not modelled. *)

#[warnings="-register-all"]
Inductive node :=
| File (readable : bool) (mtime : Z) (content : bytes)
| Dir (readable : bool) (entries : list (str * node)).

Fixpoint lookup (name : str) (es : list (str * node)) : option node :=
  match es with
  | [] => None
  | (n, x) :: rest => if str_eqb n name then Some x else lookup name rest
  end.

(** The node reached from [n] by going down through the names [comps]. *)
Fixpoint find (n : node) (comps : list str) : option node :=
  match comps with
  | [] => Some n
  | c :: rest =>
      match n with
      | Dir _ es =>
          match lookup c es with
          | Some m => find m rest
          | None => None
          end
      | File _ _ _ => None
      end
  end.

Definition is_dir (o : option node) : bool :=
  match o with Some (Dir _ _) => true | _ => false end.

Definition is_file (o : option node) : bool :=
  match o with Some (File _ _ _) => true | _ => false end.

(** Path resolution as the kernel does it: component by component from the
    root directory or the working directory; every component is looked up
    in a directory; an empty component and [.] stay, [..] goes up.  [cur]
    is the absolute position reached so far, as a list of names. *)
Fixpoint walk (root : node) (cur : list str) (comps : list str)
  : option (list str) :=
  match comps with
  | [] => Some cur
  | c :: rest =>
      if is_dir (find root cur) then
        if str_eqb c [] || str_eqb c curdir then walk root cur rest
        else if str_eqb c pardir then walk root (removelast cur) rest
        else walk root (cur ++ [c]) rest
      else None
  end.

Record env := { fs : node; cwd : list str }.

(** A path is handed to the system as bytes ([os.fsencode]): a surrogate
    that does not stand for an undecodable byte raises
    [UnicodeEncodeError], a NUL character raises [ValueError]. *)
Definition bad_surrogate (c : Z) : bool :=
  (0xD800 <=? c) && (c <=? 0xDFFF) && negb ((0xDC80 <=? c) && (c <=? 0xDCFF)).

Definition path_error (p : str) : option exn :=
  if existsb bad_surrogate p then Some UnicodeEncodeError
  else if str_contains 0 p then Some ValueError
  else None.

Definition resolve (E : env) (p : str) : option node :=
  match path_error p, p with
  | Some _, _ => None
  | None, [] => None
  | None, c :: _ =>
      match walk (fs E) (if c =? SEP then [] else cwd E) (str_split SEP p) with
      | Some q => find (fs E) q
      | None => None
      end
  end.

(** [os.getcwd()] *)
Definition getcwd (E : env) : str := SEP :: str_join [SEP] (cwd E).

(** [os.path.isdir], [os.path.isfile]: false where the path cannot be
    resolved or cannot be converted. *)
Definition os_path_isdir (E : env) (p : str) : bool := is_dir (resolve E p).
Definition os_path_isfile (E : env) (p : str) : bool := is_file (resolve E p).

(** [os.listdir(p)]: [OSError] when [p] is no directory or may not be
    read. *)
Definition os_listdir (E : env) (p : str) : result (list str) :=
  match path_error p with
  | Some e => Raise e
  | None =>
      match resolve E p with
      | Some (Dir true es) => Ok (map fst es)
      | _ => Raise OSError
      end
  end.

(** [open(p, 'rb')] followed by [os.fstat] and a read of the whole file:
    modification time and content. *)
Definition open_rb (E : env) (p : str) : result (Z * bytes) :=
  match path_error p with
  | Some e => Raise e
  | None =>
      match resolve E p with
      | Some (File true mtime content) => Ok (mtime, content)
      | _ => Raise OSError
      end
  end.

(** [os.path.abspath(p)] *)
Definition abspath (E : env) (p : str) : str :=
  normpath (if str_startswith p [SEP] then p else path_join (getcwd E) p).

(** A word that names an entry when it is looked up in a directory: not
    empty, neither [.] nor [..], and free of slashes. *)
Definition plain_word (w : str) : bool :=
  negb (str_eqb w []) && negb (str_eqb w curdir) && negb (str_eqb w pardir)
  && negb (str_contains SEP w).

(** The values a character of a [str] can take. *)
Definition is_code_point (c : Z) : bool := (0 <=? c) && (c <? 0x110000).

(** A name a directory entry can have: a plain word that can be converted
    for the system. *)
Definition simple_name (w : str) : bool :=
  plain_word w && negb (existsb bad_surrogate w) && negb (str_contains 0 w)
  && forallb is_code_point w.

Fixpoint distinct (names : list str) : bool :=
  match names with
  | [] => true
  | n :: rest => negb (existsb (str_eqb n) rest) && distinct rest
  end.

(** The entries of one directory are well formed: simple, distinct names. *)
Definition wf_entries (es : list (str * node)) : bool :=
  forallb simple_name (map fst es) && distinct (map fst es).

(** The working directory exists and its path is made of simple names. *)
Definition wf_env (E : env) : bool :=
  forallb simple_name (cwd E) && is_dir (find (fs E) (cwd E)).

(** ** The request handler: effects

    A handler talks to its client through [send_response], [send_header],
    [end_headers] and [wfile.write].  The first two only fill the headers
    buffer; [end_headers] flushes the buffer to the socket.  What reaches
    the socket is recorded item by item.  ([send_response] also adds the
    [Server] and [Date] headers of the base class, which are left out.) *)

Inductive item :=
| Status (code : Z)
| Header (keyword value : str)
| EndHeaders
| Data (b : bytes).

Record hstate := { headers_buffer : list item; wfile : list item }.

Definition fresh : hstate := {| headers_buffer := []; wfile := [] |}.

Definition M (A : Type) : Type := hstate -> result A * hstate.

Definition ret {A} (a : A) : M A := fun st => (Ok a, st).

Definition raise {A} (e : exn) : M A := fun st => (Raise e, st).

Definition bind {A B} (m : M A) (k : A -> M B) : M B :=
  fun st =>
    match m st with
    | (Ok a, st') => k a st'
    | (Raise e, st') => (Raise e, st')
    end.

Notation "x <- m ;; k" := (bind m (fun x => k))
  (at level 61, m at next level, right associativity).
Notation "m ;; k" := (bind m (fun _ => k))
  (at level 61, right associativity).

(** A call that returns or raises, and an encoding that may fail. *)
Definition call {A} (r : result A) : M A := fun st => (r, st).

Definition encoded (o : option bytes) : M bytes :=
  match o with
  | Some b => ret b
  | None => raise UnicodeEncodeError
  end.

Definition send_response (code : Z) : M unit :=
  fun st => (Ok tt, {| headers_buffer := headers_buffer st ++ [Status code];
                       wfile := wfile st |}).

Definition send_header (keyword value : str) : M unit :=
  fun st => (Ok tt, {| headers_buffer := headers_buffer st ++ [Header keyword value];
                       wfile := wfile st |}).

Definition end_headers : M unit :=
  fun st => (Ok tt, {| headers_buffer := [];
                       wfile := wfile st ++ headers_buffer st ++ [EndHeaders] |}).

Definition wfile_write (b : bytes) : M unit :=
  fun st => (Ok tt, {| headers_buffer := headers_buffer st;
                       wfile := wfile st ++ [Data b] |}).

(** What the client sees of a response. *)
Fixpoint status_of (sent : list item) : option Z :=
  match sent with
  | [] => None
  | Status c :: _ => Some c
  | _ :: rest => status_of rest
  end.

Fixpoint header_of (keyword : str) (sent : list item) : option str :=
  match sent with
  | [] => None
  | Header k v :: rest =>
      if str_eqb (str_lower k) (str_lower keyword) then Some v
      else header_of keyword rest
  | _ :: rest => header_of keyword rest
  end.

Fixpoint body_of (sent : list item) : bytes :=
  match sent with
  | [] => []
  | Data b :: rest => b ++ body_of rest
  | _ :: rest => body_of rest
  end.

(** A GET request as the handler sees it: [self.path], the request target
    as the base class takes it from the request line (it reduces a run of
    slashes at the start to one), and [self.headers]. *)
Record request := { self_path : str; self_headers : list (str * str) }.

(** [self.headers[name]] and [name in self.headers]: header names are
    matched without regard to case. *)
Fixpoint headers_get (name : str) (hs : list (str * str)) : option str :=
  match hs with
  | [] => None
  | (k, v) :: rest =>
      if str_eqb (str_lower k) (str_lower name) then Some v
      else headers_get name rest
  end.

Definition headers_mem (name : str) (hs : list (str * str)) : bool :=
  match headers_get name hs with Some _ => true | None => false end.

(** ** The script's constants *)

Definition AUDIO_EXT : str := lit ".mp3".

(** The value of the string literal [PLAYER_HTML], line by line. *)
Definition PLAYER_HTML : str := str_join [10] [
  lit "<!doctype html>";
  lit "<html>";
  lit "<head>";
  lit "<meta charset=" ++ DQ ++ lit "utf-8" ++ DQ ++ lit "/>";
  lit "<title>mp3srv + real-time EQ</title>";
  lit "<style>";
  lit "  body{font-family:sans-serif;text-align:center;margin:0;background:#111;color:#eee}";
  lit "  #now{margin:8px 0;font-weight:bold}";
  lit "  button{width:4.5em;height:2.2em;margin:.2em;font-size:1em}";
  lit "  #a{display:none}";
  lit "  #eq{display:flex;justify-content:center;align-items:end;height:120px;margin:10px 0}";
  lit "  .bar{width:6px;margin:1px;background:#0f0;min-height:2px}";
  lit "  #controls{margin:10px auto;width:320px;display:flex;flex-direction:column}";
  lit "  .band{display:flex;justify-content:space-between;align-items:center;margin:3px 0}";
  lit "  .band input{width:200px}";
  lit "</style>";
  lit "</head>";
  lit "<body>";
  lit "  <div id=" ++ DQ ++ lit "now" ++ DQ ++ lit ">loading" ++ [8230] ++ lit "</div>";
  [];
  lit "  <audio id=" ++ DQ ++ lit "a" ++ DQ ++ lit " preload=" ++ DQ ++ lit "metadata" ++ DQ ++ lit "></audio>";
  [];
  lit "  <!-- spectrum visualizer -->";
  lit "  <div id=" ++ DQ ++ lit "eq" ++ DQ ++ lit "></div>";
  [];
  lit "  <!-- EQ sliders -->";
  lit "  <div id=" ++ DQ ++ lit "controls" ++ DQ ++ lit "></div>";
  [];
  lit "  <!-- transport -->";
  lit "  <button onclick=" ++ DQ ++ lit "prev()" ++ DQ ++ lit ">" ++ [9198] ++ lit "</button>";
  lit "  <button onclick=" ++ DQ ++ lit "toggle()" ++ DQ ++ lit ">" ++ [9199] ++ lit "</button>";
  lit "  <button onclick=" ++ DQ ++ lit "next()" ++ DQ ++ lit ">" ++ [9197] ++ lit "</button>";
  [];
  lit "<script>";
  lit "/* ---------- playlist ---------- */";
  lit "let idx = 0, list = [];";
  lit "const a   = document.getElementById('a');";
  lit "const now = document.getElementById('now');";
  [];
  lit "fetch('/playlist.json')";
  lit "  .then(r => r.json())";
  lit "  .then(files => {";
  lit "      list = files;";
  lit "      if (list.length) { setupEQ(); load(0); }";
  lit "      else now.textContent = 'No mp3 files found.';";
  lit "  });";
  [];
  lit "/* ---------- Web Audio setup ---------- */";
  lit "let ctx, source, analyser, bands=[], gains=[];";
  [];
  lit "function setupEQ(){";
  lit "  ctx = new (window.AudioContext || window.webkitAudioContext)();";
  lit "  source = ctx.createMediaElementSource(a);";
  [];
  lit "  /* 10 octave-spaced bands (approx) */";
  lit "  const freqs = [32, 64, 125, 250, 500, 1000, 2000, 4000, 8000, 16000];";
  lit "  freqs.forEach((f,i)=>{";
  lit "    const filter = ctx.createBiquadFilter();";
  lit "    filter.type = 'peaking';";
  lit "    filter.frequency.value = f;";
  lit "    filter.Q.value  = Math.SQRT2;          // " ++ [8776] ++ lit " 1.41";
  lit "    filter.gain.value = 0;                 // flat";
  lit "    bands.push(filter);";
  lit "    gains.push(filter.gain);";
  [];
  lit "    /* UI slider */";
  lit "    const row = document.createElement('div');";
  lit "    row.className = 'band';";
  lit "    row.innerHTML = `";
  lit "      <label>${f} Hz</label>";
  lit "      <input type=" ++ DQ ++ lit "range" ++ DQ ++ lit " min=" ++ DQ ++ lit "-12" ++ DQ ++ lit " max=" ++ DQ ++ lit "12" ++ DQ ++ lit " value=" ++ DQ ++ lit "0" ++ DQ ++ lit " step=" ++ DQ ++ lit "0.5" ++ DQ ++ lit ">";
  lit "      <span>0 dB</span>`;";
  lit "    const slider = row.querySelector('input');";
  lit "    const span   = row.querySelector('span');";
  lit "    slider.addEventListener('input', e=>{";
  lit "      const g = parseFloat(e.target.value);";
  lit "      gains[i].value = g;";
  lit "      span.textContent = g + ' dB';";
  lit "    });";
  lit "    document.getElementById('controls').appendChild(row);";
  lit "  });";
  [];
  lit "  /* chain: source " ++ [8594] ++ lit " filters " ++ [8594] ++ lit " analyser " ++ [8594] ++ lit " destination */";
  lit "  let node = source;";
  lit "  bands.forEach(b=>{ node.connect(b); node = b; });";
  lit "  analyser = ctx.createAnalyser();";
  lit "  analyser.fftSize = 1024;";
  lit "  node.connect(analyser).connect(ctx.destination);";
  [];
  lit "  /* spectrum visualizer */";
  lit "  const bufferLength = analyser.frequencyBinCount;";
  lit "  const dataArray    = new Uint8Array(bufferLength);";
  lit "  const eqDiv        = document.getElementById('eq');";
  lit "  for (let i=0;i<64;i++){";
  lit "    const bar = document.createElement('div');";
  lit "    bar.className = 'bar';";
  lit "    eqDiv.appendChild(bar);";
  lit "  }";
  lit "  const bars = eqDiv.children;";
  lit "  function draw(){";
  lit "    analyser.getByteFrequencyData(dataArray);";
  lit "    for (let i=0;i<bars.length;i++){";
  lit "      const h = dataArray[i*4];";
  lit "      bars[i].style.height = (h/2) + 'px';";
  lit "    }";
  lit "    requestAnimationFrame(draw);";
  lit "  }";
  lit "  draw();";
  lit "}";
  [];
  lit "/* ---------- player helpers ---------- */";
  lit "function load(i){";
  lit "  idx = (i + list.length) % list.length;";
  lit "  now.textContent = `Now playing: ${list[idx]}`;";
  lit "  a.src = encodeURIComponent(list[idx]);";
  lit "  a.play();";
  lit "}";
  lit "function next(){load(idx+1);}";
  lit "function prev(){load(idx-1);}";
  lit "function toggle(){";
  lit "  if (ctx.state === 'suspended') ctx.resume();";
  lit "  a.paused ? a.play() : a.pause();";
  lit "}";
  lit "a.addEventListener('ended', next);";
  lit "</script>";
  lit "</body>";
  lit "</html>"
].

(** What the library computes from tables, clocks and page templates is
    taken as given:
    - [guess_type path], the content type chosen from the file name;
    - [date_time_string t], the RFC 2822 rendering of a time stamp;
    - [not_modified_since v t], whether the [If-Modified-Since] value [v]
      parses to a UTC time that [t] (whole seconds) does not exceed;
    - [error_body code message], the HTML page of [send_error];
    - [listing_body E self_path path names], the HTML page of
      [list_directory];
    - [urlsplit_path target], the path component [urlsplit] finds, and
      [redirect_url target], the target with a slash added to that path. *)
Record library := {
  guess_type : str -> str;
  date_time_string : Z -> str;
  not_modified_since : str -> Z -> bool;
  error_body : Z -> str -> bytes;
  listing_body : env -> str -> str -> list str -> bytes;
  urlsplit_path : str -> str;
  redirect_url : str -> str
}.

(** What the process does is recorded as a list of outputs. *)
Inductive output :=
| Stdout (s : str)
| Stderr (s : str)
| Listen (port : Z)
| Connection (sent : list item)
| Traceback (e : exn)
| Exit (status : Z).

Section Server.

(** ** The inherited handler: [http.server.SimpleHTTPRequestHandler]

    The handler of the script overrides [do_GET] only and hands every
    request it does not answer itself to [super().do_GET()].  That method
    and the methods it calls are embedded here after the library source,
    over the [library] record [L]. *)

Variable L : library.

(** [send_error(code, message)] for a GET request. *)
Definition send_error (code : Z) (message : str) : M unit :=
  send_response code ;;
  send_header (lit "Connection") (lit "close") ;;
  if (200 <=? code) && negb ((code =? 204) || (code =? 205) || (code =? 304))
  then
    let body := error_body L code message in
    send_header (lit "Content-Type") (lit "text/html;charset=utf-8") ;;
    send_header (lit "Content-Length") (str_of_int (Z.of_nat (List.length body))) ;;
    end_headers ;;
    match body with
    | [] => ret tt
    | _ => wfile_write body
    end
  else end_headers.

(** [translate_path(path)], with [directory] for [self.directory]. *)
Definition translate_path (directory : str) (path : str) : str :=
  let path := item0 (str_split1 63 path) in
  let path := item0 (str_split1 35 path) in
  let trailing_slash := str_endswith (str_rstrip path) [SEP] in
  let path := match unquote_errors Surrogatepass path with
              | Some p => p
              | None => unquote path
              end in
  let path := normpath path in
  let words := str_split SEP path in
  let words := filter (fun w => negb (str_eqb w [])) words in
  let path :=
    fold_left
      (fun path word =>
         if negb (str_eqb (dirname word) [])
            || str_eqb word curdir || str_eqb word pardir
         then path
         else path_join path word)
      words directory in
  if trailing_slash then path ++ [SEP] else path.

(** [list_directory(path)] *)
Definition list_directory (E : env) (self : request) (path : str)
  : M (option bytes) :=
  match os_listdir E path with
  | Raise OSError =>
      send_error 404 (lit "No permission to list directory") ;;
      ret None
  | Raise e => raise e
  | Ok list =>
      let encoded := listing_body L E (self_path self) path list in
      send_response 200 ;;
      send_header (lit "Content-type") (lit "text/html; charset=utf-8") ;;
      send_header (lit "Content-Length")
                  (str_of_int (Z.of_nat (List.length encoded))) ;;
      end_headers ;;
      ret (Some encoded)
  end.

(** The part of [send_head] that follows the directory test: the file at
    [path] is opened and its headers are sent. *)
Definition send_head_file (E : env) (self : request) (path : str)
  : M (option bytes) :=
  let ctype := guess_type L path in
  if str_endswith path [SEP] then
    send_error 404 (lit "File not found") ;;
    ret None
  else
    match open_rb E path with
    | Raise OSError =>
        send_error 404 (lit "File not found") ;;
        ret None
    | Raise e => raise e
    | Ok (st_mtime, content) =>
        if headers_mem (lit "If-Modified-Since") (self_headers self)
           && negb (headers_mem (lit "If-None-Match") (self_headers self))
           && match headers_get (lit "If-Modified-Since") (self_headers self) with
              | Some ims => not_modified_since L ims st_mtime
              | None => false
              end
        then
          send_response 304 ;;
          end_headers ;;
          ret None
        else
          send_response 200 ;;
          send_header (lit "Content-type") ctype ;;
          send_header (lit "Content-Length")
                      (str_of_int (Z.of_nat (List.length content))) ;;
          send_header (lit "Last-Modified") (date_time_string L st_mtime) ;;
          end_headers ;;
          ret (Some content)
    end.

(** [send_head()]: the response code and headers; the value is the open
    file (its content) that the caller has to copy, if there is one. *)
Definition send_head (E : env) (self : request) : M (option bytes) :=
  let path := translate_path (getcwd E) (self_path self) in
  if os_path_isdir E path then
    if negb (str_endswith (urlsplit_path L (self_path self)) [SEP]) then
      send_response 301 ;;
      send_header (lit "Location") (redirect_url L (self_path self)) ;;
      send_header (lit "Content-Length") (lit "0") ;;
      end_headers ;;
      ret None
    else if os_path_isfile E (path_join path (lit "index.html")) then
      send_head_file E self (path_join path (lit "index.html"))
    else if os_path_isfile E (path_join path (lit "index.htm")) then
      send_head_file E self (path_join path (lit "index.htm"))
    else list_directory E self path
  else send_head_file E self path.

(** [copyfile(source, outputfile)]: the chunks of the copy are written as
    one; nothing is written for an empty file. *)
Definition copyfile (source : bytes) : M unit :=
  match source with
  | [] => ret tt
  | _ => wfile_write source
  end.

(** [SimpleHTTPRequestHandler.do_GET] *)
Definition SimpleHTTPRequestHandler_do_GET (E : env) (self : request) : M unit :=
  f <- send_head E self ;;
  match f with
  | Some source => copyfile source
  | None => ret tt
  end.

(** ** The handler of the script: [class Handler] *)

Definition send_html (html : str) : M unit :=
  send_response 200 ;;
  send_header (lit "Content-Type") (lit "text/html; charset=utf-8") ;;
  end_headers ;;
  b <- encoded (str_encode html) ;;
  wfile_write b.

Definition send_json (obj : list str) : M unit :=
  send_response 200 ;;
  send_header (lit "Content-Type") (lit "application/json") ;;
  end_headers ;;
  b <- encoded (str_encode (json_dumps obj)) ;;
  wfile_write b.

Definition do_GET (E : env) (self : request) : M unit :=
  let path := unquote (item0 (str_split1 63 (self_path self))) in
  if str_eqb path (lit "/playlist.json") then
    names <- call (os_listdir E (lit ".")) ;;
    let files := filter (fun f => str_endswith (str_lower f) AUDIO_EXT) names in
    send_json files
  else if str_eqb path (lit "/") then
    send_html PLAYER_HTML
  else
    SimpleHTTPRequestHandler_do_GET E self.

(** ** The request loop and the start-up script

    Every connection carries one GET request and finds the file system in
    the state given with it; the working directory is the one set at
    start-up. *)

(** [BaseServer._handle_request_noblock]: the handler runs on a fresh
    connection; an exception that leaves it is caught, its traceback is
    printed ([handle_error]) and the connection is shut down. *)
Definition handle_request_noblock (E : env) (self : request) : list output :=
  match do_GET E self fresh with
  | (Ok _, st) => [Connection (wfile st)]
  | (Raise e, st) => [Traceback e; Connection (wfile st)]
  end.

(** [serve_forever()] over the connections that come in. *)
Fixpoint serve_forever (cwd : list str) (incoming : list (node * request))
  : list output :=
  match incoming with
  | [] => []
  | (fs_now, self) :: rest =>
      handle_request_noblock {| fs := fs_now; cwd := cwd |} self
      ++ serve_forever cwd rest
  end.



End Server.

(** ** The vocabulary of the specification *)

(** The request path: the part of the request target that precedes the
    first [?], percent-decoded. *)
Fixpoint before_first (c : Z) (s : str) : str :=
  match s with
  | [] => []
  | x :: r => if x =? c then [] else x :: before_first c r
  end.

Definition request_path (target : str) : str :=
  unquote (before_first 63 target).

(** The playlist filter and the playlist entries of a directory listing. *)
Definition is_audio (f : str) : bool := str_endswith (str_lower f) AUDIO_EXT.

Definition playlist (names : list str) : list str := filter is_audio names.

(** The three responders the dispatcher chooses from. *)
Definition playlist_endpoint (E : env) : M unit :=
  names <- call (os_listdir E (lit ".")) ;;
  send_json (playlist names).

Definition page_responder : M unit := send_html PLAYER_HTML.

Definition static_file_responder (L : library) (E : env) (self : request)
  : M unit :=
  SimpleHTTPRequestHandler_do_GET L E self.

(** The response of the playlist endpoint and of the page responder as it
    reaches the client. *)
Definition json_response (body : bytes) : list item :=
  [Status 200; Header (lit "Content-Type") (lit "application/json");
   EndHeaders; Data body].

Definition html_response (body : bytes) : list item :=
  [Status 200; Header (lit "Content-Type") (lit "text/html; charset=utf-8");
   EndHeaders; Data body].

Definition done (sent : list item) : result unit * hstate :=
  (Ok tt, {| headers_buffer := []; wfile := sent |}).

(** What the page makes of the playlist: [r.json()] reads the body as JSON
    text.  A string of the script is a sequence of UTF-16 code units, and
    the reader below is the JSON grammar for an array of strings. *)
Definition utf16_cp (c : Z) : list Z :=
  if c <? 0x10000 then [c]
  else [0xD800 + (c - 0x10000) / 1024; 0xDC00 + (c - 0x10000) mod 1024].

Definition utf16 (s : str) : list Z := flat_map utf16_cp s.

Definition simple_escape (e : Z) : option Z :=
  if e =? 34 then Some 34
  else if e =? 92 then Some 92
  else if e =? 47 then Some 47
  else if e =? 98 then Some 8
  else if e =? 102 then Some 12
  else if e =? 110 then Some 10
  else if e =? 114 then Some 13
  else if e =? 116 then Some 9
  else None.

Definition hex4_value (h1 h2 h3 h4 : Z) : option Z :=
  match hexval h1, hexval h2, hexval h3, hexval h4 with
  | Some a, Some b, Some c, Some d => Some (4096 * a + 256 * b + 16 * c + d)
  | _, _, _, _ => None
  end.

Definition is_json_ws (c : Z) : bool :=
  (c =? 32) || (c =? 9) || (c =? 10) || (c =? 13).

Inductive json_state :=
| BeforeArray | BeforeFirst | InString | AfterString | BeforeNext | AfterArray.

(** [items] holds the strings read so far, last first; [cur] the code
    units of the string that is being read, last first. *)
Fixpoint json_scan (st : json_state) (items : list (list Z)) (cur : list Z)
                   (text : str) : option (list (list Z)) :=
  match text with
  | [] => match st with
          | AfterArray => Some (rev items)
          | _ => None
          end
  | c :: r =>
      match st with
      | BeforeArray =>
          if is_json_ws c then json_scan BeforeArray items cur r
          else if c =? 91 then json_scan BeforeFirst items cur r
          else None
      | BeforeFirst =>
          if is_json_ws c then json_scan BeforeFirst items cur r
          else if c =? 93 then json_scan AfterArray items cur r
          else if c =? 34 then json_scan InString items [] r
          else None
      | BeforeNext =>
          if is_json_ws c then json_scan BeforeNext items cur r
          else if c =? 34 then json_scan InString items [] r
          else None
      | AfterString =>
          if is_json_ws c then json_scan AfterString items cur r
          else if c =? 44 then json_scan BeforeNext items cur r
          else if c =? 93 then json_scan AfterArray items cur r
          else None
      | AfterArray =>
          if is_json_ws c then json_scan AfterArray items cur r else None
      | InString =>
          if c =? 34 then json_scan AfterString (rev cur :: items) [] r
          else if c =? 92 then
            match r with
            | e :: r' =>
                if e =? 117 then
                  match r' with
                  | h1 :: h2 :: h3 :: h4 :: r'' =>
                      match hex4_value h1 h2 h3 h4 with
                      | Some u => json_scan InString items (u :: cur) r''
                      | None => None
                      end
                  | _ => None
                  end
                else match simple_escape e with
                     | Some x => json_scan InString items (x :: cur) r'
                     | None => None
                     end
            | [] => None
            end
          else if c <? 32 then None
          else json_scan InString items (c :: cur) r
      end
  end.

Definition json_parse (text : str) : option (list (list Z)) :=
  json_scan BeforeArray [] [] text.

(** What [translate_path] makes of a request target: the decoded and
    normalised path, the words of it that are kept, and the trailing slash
    that is remembered. *)
Definition abs_path (comps : list str) : str := SEP :: str_join [SEP] comps.

Definition target_path (path : str) : str :=
  item0 (str_split1 35 (item0 (str_split1 63 path))).

Definition trailing_slash (path : str) : bool :=
  str_endswith (str_rstrip (target_path path)) [SEP].

Definition decoded_path (path : str) : str :=
  normpath (match unquote_errors Surrogatepass (target_path path) with
            | Some p => p
            | None => unquote (target_path path)
            end).

Definition ignored_word (word : str) : bool :=
  negb (str_eqb (dirname word) [])
  || str_eqb word curdir || str_eqb word pardir.

Definition kept_words (path : str) : list str :=
  filter (fun word => negb (ignored_word word))
         (filter (fun w => negb (str_eqb w []))
                 (str_split SEP (decoded_path path))).






(** How the page asks for a playlist entry: [a.src] is set to
    [encodeURIComponent(name)], a relative reference that the browser
    resolves against the page, so the target is a slash and the encoded
    name.  [encodeURIComponent] writes the UTF-8 bytes of the name, each
    byte either as an unreserved character or as [%] and two capital
    hexadecimal digits; it fails ([URIError]) on a lone surrogate. *)
Definition unreserved (b : Z) : bool :=
  ((65 <=? b) && (b <=? 90)) || ((97 <=? b) && (b <=? 122))
  || ((48 <=? b) && (b <=? 57))
  || existsb (Z.eqb b) (lit "-_.!~*'()").

Definition HEX (d : Z) : Z := if d <? 10 then 48 + d else 55 + d.

Definition pct_byte (b : Z) : str :=
  if unreserved b then [b] else [37; HEX (b / 16); HEX (b mod 16)].

Definition encodeURIComponent (s : str) : option str :=
  option_map (flat_map pct_byte) (str_encode s).

(** A library instance to run the handler on concrete requests. *)
Definition plain_library : library :=
  {| guess_type := fun _ => lit "application/octet-stream";
     date_time_string := fun _ => lit "Thu, 01 Jan 1970 00:00:00 GMT";
     not_modified_since := fun _ _ => false;
     error_body := fun _ message => message;
     listing_body := fun _ _ _ names => str_join [10] names;
     urlsplit_path := before_first 63;
     redirect_url := fun target => target ++ [SEP] |}.

Definition GET (target : string) : request :=
  {| self_path := lit target; self_headers := [] |}.

(** ** The player script of the page

    The script in [PLAYER_HTML] keeps the playlist in [list] and the
    position of the current track in [idx]; [load], [next] and [prev] move
    through the playlist, and the callback of [fetch] starts the player.
    What the script does to the page and to the audio element is recorded
    as a list of effects. *)

(** A number of the script.  The counters of the player are integers far
    below [2^53], where the arithmetic of the script is exact; the only
    other value that arises is [NaN]. *)
Inductive number := Num (z : Z) | NaN.

Definition number_add (a b : number) : number :=
  match a, b with
  | Num x, Num y => Num (x + y)
  | _, _ => NaN
  end.

Definition number_sub (a b : number) : number :=
  match a, b with
  | Num x, Num y => Num (x - y)
  | _, _ => NaN
  end.

(** [a % b]: the remainder takes the sign of the dividend; it is [NaN]
    when the divisor is zero. *)
Definition number_rem (a b : number) : number :=
  match a, b with
  | Num x, Num y => if y =? 0 then NaN else Num (Z.rem x y)
  | _, _ => NaN
  end.

(** [list[n]]: [undefined], here [None], unless [n] is an index of the
    array. *)
Definition element (l : list (list Z)) (n : number) : option (list Z) :=
  match n with
  | Num z => if z <? 0 then None else nth_error l (Z.to_nat z)
  | NaN => None
  end.

(** The string a template literal and [encodeURIComponent] make of a
    value that is a string or [undefined]. *)
Definition ToString (v : option (list Z)) : list Z :=
  match v with
  | Some s => s
  | None => lit "undefined"
  end.

(** The code points of a string of the script, which is a sequence of
    UTF-16 code units; [None] when a surrogate is not part of a pair. *)
Fixpoint utf16_decode (units : list Z) : option str :=
  match units with
  | [] => Some []
  | u :: r =>
      if (0xDC00 <=? u) && (u <=? 0xDFFF) then None
      else if (0xD800 <=? u) && (u <=? 0xDBFF) then
        match r with
        | v :: r' =>
            if (0xDC00 <=? v) && (v <=? 0xDFFF)
            then option_map
                   (cons (0x10000 + (u - 0xD800) * 1024 + (v - 0xDC00)))
                   (utf16_decode r')
            else None
        | [] => None
        end
      else option_map (cons u) (utf16_decode r)
  end.

(** [encodeURIComponent(s)] on a string of the script: the code points are
    read from the code units, then encoded as above; [None] stands for
    [URIError]. *)
Definition js_encodeURIComponent (s : list Z) : option str :=
  match utf16_decode s with
  | Some cps => encodeURIComponent cps
  | None => None
  end.

Inductive js_exn := URIError | SyntaxError.

Inductive effect :=
| NowText (text : list Z)
| Src (url : list Z)
| Play
| SetupEQ.

Record player := {
  idx : number;
  list_ : list (list Z);
  effects : list effect
}.

(** [let idx = 0, list = [];] *)
Definition player0 : player := {| idx := Num 0; list_ := []; effects := [] |}.

(** [load(i)]: an exception leaves the function where it is thrown. *)
Definition load (i : number) (d : player) : option js_exn * player :=
  let length := Num (Z.of_nat (List.length (list_ d))) in
  let i' := number_rem (number_add i length) length in
  let name := ToString (element (list_ d) i') in
  let shown := effects d ++ [NowText (lit "Now playing: " ++ name)] in
  match js_encodeURIComponent name with
  | None => (Some URIError, {| idx := i'; list_ := list_ d; effects := shown |})
  | Some url =>
      (None, {| idx := i'; list_ := list_ d;
                effects := shown ++ [Src url; Play] |})
  end.

Definition next (d : player) : option js_exn * player :=
  load (number_add (idx d) (Num 1)) d.

Definition prev (d : player) : option js_exn * player :=
  load (number_sub (idx d) (Num 1)) d.

(** The callback of [fetch('/playlist.json')] on the parsed playlist.
    [setupEQ], which builds the audio graph, is recorded as one effect and
    taken to return. *)
Definition on_playlist (files : list (list Z)) (d : player)
  : option js_exn * player :=
  match files with
  | [] =>
      (None, {| idx := idx d; list_ := files;
                effects := effects d ++ [NowText (lit "No mp3 files found.")] |})
  | _ =>
      load (Num 0) {| idx := idx d; list_ := files;
                      effects := effects d ++ [SetupEQ] |}
  end.



(** The buttons and the [ended] event of the audio element; an exception
    ends the handler that raised it and leaves the player as it is then. *)
Inductive event := PressNext | PressPrev | Ended.

Definition handle (d : player) (e : event) : player :=
  match e with
  | PressNext | Ended => snd (next d)
  | PressPrev => snd (prev d)
  end.

Definition handle_all (events : list event) (d : player) : player :=
  fold_left handle events d.

(** ** The vocabulary of the proofs *)

(** ASCII text, as a property and as a test. *)
Definition is_ascii (s : str) : Prop := Forall (fun c => 0 <= c < 128) s.

Definition asciib (s : str) : bool :=
  forallb (fun c => (0 <=? c) && (c <? 128)) s.

(** The components of a split path. *)
Definition nonempty (w : str) : bool := negb (str_eqb w []).

Definition empty_or_plain (c : str) : bool := str_eqb c [] || plain_word c.

(** What [abs_path comps] splits into after its first, empty component. *)
Definition tail_split (comps : list str) : list str :=
  match comps with
  | [] => [[]]
  | _ => comps
  end.

(** An absolute path whose components are empty or plain words stands for
    the list of its plain words. *)
Definition names (p : str) (comps : list str) : Prop :=
  str_startswith p [SEP] = true
  /\ forallb empty_or_plain (str_split SEP p) = true
  /\ filter nonempty (str_split SEP p) = comps.

(** The same, with the last component [w] set apart. *)
Definition names_child (p : str) (comps : list str) (w : str) : Prop :=
  str_startswith p [SEP] = true
  /\ exists l, str_split SEP p = l ++ [w]
               /\ forallb empty_or_plain l = true
               /\ filter nonempty l = comps.




Definition sent (m : M unit) : list item := wfile (snd (m fresh)).


(** Three environments to run the server in: a music directory that is the
    whole file system; the same directory below [/srv], with another file
    of the same name beside it; and a root that may not be listed. *)
Definition music : list (str * node) :=
  [(lit "a.mp3", File true 1700000000 [73; 68; 51; 4]);
   (lit "b.MP3", File true 1700000001 [73; 68; 51; 3; 0]);
   (lit "c.txt", File true 1700000002 (lit "notes"));
   (lit "locked.mp3", File false 1700000003 [73; 68; 51]);
   (lit ".Mp3", File true 1700000004 []);
   (lit "my #1 song?.mp3", File true 1700000005 [73; 68; 51; 2])].

Definition E_music : env := {| fs := Dir true music; cwd := [] |}.

Definition E_srv : env :=
  {| fs := Dir true [(lit "srv", Dir true music);
                      (lit "a.mp3", File true 1600000000 (lit "outside"))];
     cwd := [lit "srv"] |}.

Definition E_locked : env := {| fs := Dir false music; cwd := [] |}.

(** A player that points at one of its tracks. *)
Definition valid_index (d : player) : bool :=
  match idx d with
  | Num z => (0 <=? z) && (z <? Z.of_nat (List.length (list_ d)))
  | NaN => false
  end.

Definition is_surrogate (c : Z) : bool := (0xD800 <=? c) && (c <=? 0xDFFF).

(** Two more roots: one with a directory that has the name of an audio
    file, and one with two unusual names, the first with the surrogate
    that stands for the byte [0xE9] of a name that is no UTF-8, the second
    with a character outside the basic plane (U+1F3B5). *)
Definition E_album : env :=
  {| fs := Dir true [(lit "live.mp3",
                      Dir true [(lit "01.mp3", File true 1700000010 [73; 68; 51])]);
                     (lit "a.mp3", File true 1700000000 [73; 68; 51; 4])];
     cwd := [] |}.

Definition odd_music : list (str * node) :=
  [(lit "a.mp3", File true 1700000000 [73; 68; 51; 4]);
   (lit "caf" ++ [0xDCE9] ++ lit ".mp3", File true 1700000020 [73; 68; 51]);
   ([0x1F3B5] ++ lit ".mp3", File true 1700000021 [73; 68; 51; 1])].


(** * Properties *)

(** ** Strings *)

Lemma str_eqb_eq (a b : str) : str_eqb a b = true <-> a = b.
Proof.
  revert b; induction a as [|x a IH]; intros [|y b]; simpl; split;
    try congruence; try reflexivity.
  - intros H. apply andb_true_iff in H as [Hx Hr].
    apply Z.eqb_eq in Hx. apply IH in Hr. congruence.
  - intros H. injection H as -> ->. rewrite Z.eqb_refl. simpl.
    now apply IH.
Qed.

Lemma str_eqb_refl (a : str) : str_eqb a a = true.
Proof. now apply str_eqb_eq. Qed.

Lemma str_eqb_neq (a b : str) : str_eqb a b = false <-> a <> b.
Proof.
  split.
  - intros H Heq. apply str_eqb_eq in Heq. congruence.
  - intros H. destruct (str_eqb a b) eqn:Heq; [|reflexivity].
    apply str_eqb_eq in Heq. contradiction.
Qed.

Lemma str_split1_nonempty (sep : Z) (s : str) : str_split1 sep s <> [].
Proof.
  destruct s as [|c r]; simpl; [discriminate|].
  destruct (c =? sep); [discriminate|].
  destruct (str_split1 sep r); discriminate.
Qed.

(** [s.split(sep, 1)[0]] is [s] up to its first [sep]. *)
Lemma split1_item0 (sep : Z) (s : str) :
  item0 (str_split1 sep s) = before_first sep s.
Proof.
  induction s as [|c r IH]; simpl; [reflexivity|].
  destruct (c =? sep); [reflexivity|].
  unfold item0 in IH.
  destruct (str_split1 sep r) as [|w ws] eqn:Hs; simpl in *.
  - now apply str_split1_nonempty in Hs.
  - now rewrite IH.
Qed.

Lemma before_first_no_sep (c : Z) (s : str) :
  str_contains c (before_first c s) = false.
Proof.
  induction s as [|x r IH]; simpl; [reflexivity|].
  destruct (x =? c) eqn:Hx; simpl; [reflexivity|].
  rewrite Z.eqb_sym, Hx. exact IH.
Qed.

Lemma before_first_id (c : Z) (s : str) :
  str_contains c s = false -> before_first c s = s.
Proof.
  induction s as [|x r IH]; simpl; [reflexivity|].
  intros H. apply orb_false_iff in H as [Hx Hr].
  rewrite Z.eqb_sym, Hx. now rewrite IH.
Qed.

Section Dispatch.

Variable L : library.

(** The local variable [path] of [do_GET] is the request path. *)
Lemma do_GET_dispatch (E : env) (self : request) :
  do_GET L E self =
    if str_eqb (request_path (self_path self)) (lit "/playlist.json")
    then playlist_endpoint E
    else if str_eqb (request_path (self_path self)) (lit "/")
         then page_responder
         else static_file_responder L E self.
Proof.
  unfold do_GET, request_path. rewrite split1_item0.
  unfold playlist_endpoint, page_responder, static_file_responder, playlist,
    is_audio.
  reflexivity.
Qed.

End Dispatch.

(** ** ASCII text and its encoding *)

Lemma str_encode_ascii (s : str) : is_ascii s -> str_encode s = Some s.
Proof.
  induction 1 as [|c r Hc _ IH]; simpl; [reflexivity|].
  unfold utf8_encode_cp.
  destruct (c <? 0) eqn:H0; [apply Z.ltb_lt in H0; lia|].
  destruct (c <? 128) eqn:H1; [|apply Z.ltb_ge in H1; lia].
  now rewrite IH.
Qed.

Lemma is_ascii_app (a b : str) : is_ascii a -> is_ascii b -> is_ascii (a ++ b).
Proof. intros Ha Hb. apply Forall_app. now split. Qed.

Lemma asciib_ok (s : str) : asciib s = true -> is_ascii s.
Proof.
  intros H. apply Forall_forall. intros c Hc.
  unfold asciib in H. rewrite forallb_forall in H.
  specialize (H c Hc). apply andb_true_iff in H as [Hlo Hhi].
  apply Z.leb_le in Hlo. apply Z.ltb_lt in Hhi. lia.
Qed.

(** A literal is seen to be ASCII by looking at it. *)
Ltac ascii_lit := apply asciib_ok; reflexivity.

Lemma land_15_range (a : Z) : 0 <= Z.land a 15 < 16.
Proof.
  change 15 with (Z.ones 4). rewrite Z.land_ones by lia.
  apply Z.mod_pos_bound. reflexivity.
Qed.

Lemma hexdigit_ascii (d : Z) : 0 <= d < 16 -> 0 <= hexdigit d < 128.
Proof. intros H. unfold hexdigit. destruct (d <? 10); lia. Qed.

Lemma u_escape_ascii (n : Z) : is_ascii (u_escape n).
Proof.
  unfold u_escape, hex4. apply is_ascii_app; [ascii_lit|].
  repeat constructor; apply hexdigit_ascii, land_15_range.
Qed.

Lemma escape_char_ascii (c : Z) : is_ascii (escape_char c).
Proof.
  unfold escape_char.
  repeat match goal with
         | |- is_ascii (if ?b then _ else _) => destruct b eqn:?
         end;
    try ascii_lit;
    try apply u_escape_ascii;
    try (apply is_ascii_app; apply u_escape_ascii).
  match goal with
  | H : (32 <=? c) && (c <=? 126) = true |- _ =>
      apply andb_true_iff in H as [Hlo Hhi]
  end.
  apply Z.leb_le in Hlo, Hhi. repeat constructor; lia.
Qed.

Lemma encode_basestring_ascii_ascii (s : str) :
  is_ascii (encode_basestring_ascii s).
Proof.
  unfold encode_basestring_ascii, DQ.
  apply is_ascii_app; [repeat constructor; lia|].
  apply is_ascii_app; [|repeat constructor; lia].
  induction s as [|c r IH]; simpl; [constructor|].
  apply is_ascii_app; [apply escape_char_ascii|exact IH].
Qed.

Lemma str_join_ascii (sep : str) (parts : list str) :
  is_ascii sep -> Forall is_ascii parts -> is_ascii (str_join sep parts).
Proof.
  intros Hs. induction 1 as [|p rest Hp Hrest IH]; simpl; [constructor|].
  destruct rest as [|q rest']; [exact Hp|].
  apply is_ascii_app; [exact Hp|]. apply is_ascii_app; [exact Hs|exact IH].
Qed.

(** The text [json.dumps] returns is ASCII, so that encoding it cannot fail
    and gives the same sequence. *)
Lemma json_dumps_ascii (obj : list str) : is_ascii (json_dumps obj).
Proof.
  unfold json_dumps.
  apply is_ascii_app; [ascii_lit|].
  apply is_ascii_app; [|ascii_lit].
  apply str_join_ascii; [ascii_lit|].
  apply Forall_forall. intros x Hx. apply in_map_iff in Hx as [s [<- _]].
  apply encode_basestring_ascii_ascii.
Qed.

Lemma json_dumps_encode (obj : list str) :
  str_encode (json_dumps obj) = Some (json_dumps obj).
Proof. apply str_encode_ascii, json_dumps_ascii. Qed.

(** ** Running the two responders of the script *)

Lemma send_json_run (obj : list str) :
  send_json obj fresh = done (json_response (json_dumps obj)).
Proof.
  unfold send_json, bind, encoded. rewrite json_dumps_encode. reflexivity.
Qed.

Lemma send_html_run (html : str) (b : bytes) :
  str_encode html = Some b ->
  send_html html fresh = done (html_response b).
Proof.
  intros H. unfold send_html, bind, encoded. simpl. rewrite H. reflexivity.
Qed.

(** ** The working directory *)




Lemma playlist_In (names : list str) (f : str) :
  In f (playlist names) <-> In f names /\ is_audio f = true.
Proof. unfold playlist. apply filter_In. Qed.


(** ** The dispatcher *)


(** ** Percent-decoding of ASCII targets *)

Lemma unquote_errors_literal (e : errors) (s : str) :
  str_contains 37 s = false -> unquote_errors e s = Some s.
Proof. intros H. unfold unquote_errors. now rewrite H. Qed.

Lemma unquote_literal (s : str) : str_contains 37 s = false -> unquote s = s.
Proof. intros H. unfold unquote. now rewrite unquote_errors_literal. Qed.

Lemma utf8_decode_ascii (e : errors) (bs : bytes) :
  is_ascii bs ->
  forall fuel, (List.length bs <= fuel)%nat -> utf8_decode_fuel fuel e bs = Some bs.
Proof.
  induction 1 as [|b r Hb Hr IH]; intros fuel Hfuel.
  - destruct fuel; reflexivity.
  - destruct fuel as [|fuel']; [simpl in Hfuel; lia|].
    cbn [utf8_decode_fuel]. unfold utf8_head.
    destruct (b <? 128) eqn:Hlt; [|apply Z.ltb_ge in Hlt; lia].
    cbn [skipn]. rewrite IH by (simpl in Hfuel; lia). reflexivity.
Qed.

Lemma bytes_decode_ascii (e : errors) (bs : bytes) :
  is_ascii bs -> bytes_decode e bs = Some bs.
Proof. intros H. unfold bytes_decode. now apply utf8_decode_ascii. Qed.

Lemma unquote_to_bytes_literal (a s : str) :
  str_contains 37 a = false ->
  unquote_to_bytes (a ++ s) = a ++ unquote_to_bytes s.
Proof.
  induction a as [|c r IH]; intros H; [reflexivity|].
  unfold str_contains in H. cbn [existsb] in H.
  apply orb_false_iff in H as [Hc Hr].
  cbn [app unquote_to_bytes]. rewrite Z.eqb_sym, Hc.
  now rewrite IH.
Qed.

Lemma unquote_to_bytes_id (a : str) :
  str_contains 37 a = false -> unquote_to_bytes a = a.
Proof.
  intros H. rewrite <- (app_nil_r a) at 1.
  rewrite unquote_to_bytes_literal by exact H. apply app_nil_r.
Qed.

(** On an ASCII string the loop of [unquote] has one run, the string. *)
Lemma unquote_runs_ascii (e : errors) (s : str) :
  is_ascii s ->
  forall run, unquote_runs e run s
              = bytes_decode e (unquote_to_bytes (rev run ++ s)).
Proof.
  induction 1 as [|c r Hc Hr IH]; intros run.
  - simpl. now rewrite app_nil_r.
  - cbn [unquote_runs].
    destruct ((0 <=? c) && (c <? 128)) eqn:Hin.
    + rewrite IH. simpl. now rewrite <- app_assoc.
    + apply andb_false_iff in Hin as [Hin|Hin];
        [apply Z.leb_gt in Hin|apply Z.ltb_ge in Hin]; lia.
Qed.

Lemma str_contains_app (c : Z) (a b : str) :
  str_contains c (a ++ b) = str_contains c a || str_contains c b.
Proof. unfold str_contains. apply existsb_app. Qed.

(** An encoded question mark becomes a question mark of the path. *)
Lemma unquote_encoded_question (a b : str) :
  asciib a = true -> asciib b = true ->
  str_contains 37 a = false -> str_contains 37 b = false ->
  unquote (a ++ lit "%3F" ++ b) = a ++ lit "?" ++ b.
Proof.
  intros Ha Hb Ha37 Hb37. apply asciib_ok in Ha, Hb.
  unfold unquote, unquote_errors.
  rewrite !str_contains_app. change (str_contains 37 (lit "%3F")) with true.
  rewrite orb_true_r. cbn [negb].
  rewrite unquote_runs_ascii.
  - cbn [rev app]. rewrite unquote_to_bytes_literal by exact Ha37.
    change (unquote_to_bytes (lit "%3F" ++ b)) with (63 :: unquote_to_bytes b).
    rewrite unquote_to_bytes_id by exact Hb37.
    rewrite bytes_decode_ascii; [reflexivity|].
    apply is_ascii_app; [exact Ha|]. constructor; [lia|exact Hb].
  - apply is_ascii_app; [exact Ha|]. apply is_ascii_app; [ascii_lit|exact Hb].
Qed.

Lemma before_first_app (c : Z) (a b : str) :
  str_contains c a = false ->
  before_first c (a ++ b) = a ++ before_first c b.
Proof.
  induction a as [|x r IH]; intros H; [reflexivity|].
  unfold str_contains in H. cbn [existsb] in H.
  apply orb_false_iff in H as [Hx Hr].
  cbn [app before_first]. rewrite Z.eqb_sym, Hx. now rewrite IH.
Qed.

(** C10.  The query is cut off before the path is decoded, at a literal
    [?] only.  For an ASCII target [a%3Fb] without another [%] or [?], the
    request path is [a?b]: the encoded question mark is an ordinary
    character of the path; for the target [a?b] it is [a].  So a target
    [/playlist.json%3F...] is answered by the static file responder, and
    [/playlist.json?...] by the playlist endpoint. *)
Theorem query_cut_before_decoding (L : library) (E : env)
    (hs : list (str * str)) (a b : str) :
  asciib a = true -> asciib b = true ->
  str_contains 37 a = false -> str_contains 63 a = false ->
  str_contains 37 b = false -> str_contains 63 b = false ->
  request_path (a ++ lit "%3F" ++ b) = a ++ lit "?" ++ b
  /\ request_path (a ++ lit "?" ++ b) = a
  /\ (a = lit "/playlist.json" ->
      do_GET L E {| self_path := a ++ lit "%3F" ++ b; self_headers := hs |}
      = static_file_responder L E
          {| self_path := a ++ lit "%3F" ++ b; self_headers := hs |}
      /\ do_GET L E {| self_path := a ++ lit "?" ++ b; self_headers := hs |}
         = playlist_endpoint E).
Proof.
  intros Ha Hb Ha37 Ha63 Hb37 Hb63.
  assert (H1 : request_path (a ++ lit "%3F" ++ b) = a ++ lit "?" ++ b).
  { unfold request_path. rewrite before_first_id.
    - now apply unquote_encoded_question.
    - rewrite !str_contains_app, Ha63, Hb63. reflexivity. }
  assert (H2 : request_path (a ++ lit "?" ++ b) = a).
  { unfold request_path. rewrite before_first_app by exact Ha63.
    change (before_first 63 (lit "?" ++ b)) with (@nil Z).
    rewrite app_nil_r. now apply unquote_literal. }
  split; [exact H1|]. split; [exact H2|].
  intros ->. split.
  - rewrite do_GET_dispatch. cbn [self_path]. rewrite H1.
    change (str_eqb (lit "/playlist.json" ++ lit "?" ++ b)
                    (lit "/playlist.json")) with false.
    change (str_eqb (lit "/playlist.json" ++ lit "?" ++ b) (lit "/"))
      with false.
    reflexivity.
  - rewrite do_GET_dispatch. cbn [self_path]. rewrite H2. reflexivity.
Qed.

(** ** Reading the playlist back *)

(** A test on the numbers below [n] holds for each of them. *)
Lemma below_check (P : Z -> bool) (n : nat) :
  forallb P (map Z.of_nat (seq 0 n)) = true ->
  forall x, 0 <= x < Z.of_nat n -> P x = true.
Proof.
  intros H x Hx. rewrite forallb_forall in H. apply H.
  apply in_map_iff. exists (Z.to_nat x). split; [lia|].
  apply in_seq. lia.
Qed.

Lemma hexval_hexdigit (d : Z) : 0 <= d < 16 -> hexval (hexdigit d) = Some d.
Proof.
  intros Hd.
  pose proof (below_check
    (fun d => match hexval (hexdigit d) with
              | Some m => m =? d
              | None => false
              end) 16 eq_refl d ltac:(lia)) as H.
  cbv beta in H. destruct (hexval (hexdigit d)) as [m|]; [|discriminate].
  apply Z.eqb_eq in H. now subst m.
Qed.

Lemma nibble (n : Z) (k : Z) :
  0 <= k -> Z.land (Z.shiftr n k) 15 = (n / 2 ^ k) mod 16.
Proof.
  intros Hk. change 15 with (Z.ones 4). rewrite Z.land_ones by lia.
  now rewrite Z.shiftr_div_pow2 by exact Hk.
Qed.

Lemma hex4_read (n : Z) :
  0 <= n < 65536 ->
  hex4_value (hexdigit (Z.land (Z.shiftr n 12) 15))
             (hexdigit (Z.land (Z.shiftr n 8) 15))
             (hexdigit (Z.land (Z.shiftr n 4) 15))
             (hexdigit (Z.land n 15)) = Some n.
Proof.
  intros Hn. unfold hex4_value.
  assert (H0 : Z.land n 15 = n mod 16).
  { change 15 with (Z.ones 4). apply Z.land_ones. lia. }
  rewrite H0, !nibble by lia.
  change (2 ^ 12) with 4096. change (2 ^ 8) with 256.
  change (2 ^ 4) with 16.
  rewrite !hexval_hexdigit by (apply Z.mod_pos_bound; lia).
  f_equal.
  pose proof (Z.div_mod n 4096 ltac:(lia)) as H1.
  pose proof (Z.mod_pos_bound n 4096 ltac:(lia)) as B1.
  pose proof (Z.div_mod (n mod 4096) 256 ltac:(lia)) as H2.
  pose proof (Z.mod_pos_bound (n mod 4096) 256 ltac:(lia)) as B2.
  pose proof (Z.div_mod ((n mod 4096) mod 256) 16 ltac:(lia)) as H3.
  pose proof (Z.mod_pos_bound ((n mod 4096) mod 256) 16 ltac:(lia)) as B3.
  Z.div_mod_to_equations. lia.
Qed.

Lemma scan_u_escape (n : Z) (items : list (list Z)) (cur : list Z) (rest : str) :
  0 <= n < 65536 ->
  json_scan InString items cur (u_escape n ++ rest)
  = json_scan InString items (n :: cur) rest.
Proof.
  intros Hn. unfold u_escape, hex4.
  change (lit "\u") with [92; 117]. cbn [app json_scan].
  change (92 =? 34) with false. change (92 =? 92) with true.
  change (117 =? 117) with true. cbv iota.
  now rewrite hex4_read.
Qed.

Lemma lor_surrogate (base x : Z) :
  base = 0xD800 \/ base = 0xDC00 ->
  0 <= x < 1024 -> Z.lor base x = base + x.
Proof.
  intros Hbase Hx.
  pose proof (below_check
    (fun x => (Z.lor 0xD800 x =? 0xD800 + x) && (Z.lor 0xDC00 x =? 0xDC00 + x))
    (Z.to_nat 1024) ltac:(vm_compute; reflexivity) x ltac:(lia)) as H.
  cbv beta in H. apply andb_true_iff in H as [H1 H2].
  apply Z.eqb_eq in H1, H2. destruct Hbase; subst base; assumption.
Qed.

Lemma surrogate_pair (c : Z) :
  0x10000 <= c < 0x110000 ->
  let n := c - 0x10000 in
  Z.lor 0xD800 (Z.land (Z.shiftr n 10) 0x3FF) = 0xD800 + n / 1024
  /\ Z.lor 0xDC00 (Z.land n 0x3FF) = 0xDC00 + n mod 1024
  /\ 0 <= n / 1024 < 1024 /\ 0 <= n mod 1024 < 1024.
Proof.
  intros Hc n. assert (Hn : 0 <= n < 1048576) by (unfold n; lia).
  assert (Hhi : 0 <= n / 1024 < 1024).
  { split; [apply Z.div_pos; lia|apply Z.div_lt_upper_bound; lia]. }
  assert (Hlo : 0 <= n mod 1024 < 1024) by (apply Z.mod_pos_bound; lia).
  change 0x3FF with (Z.ones 10). rewrite !Z.land_ones by lia.
  rewrite Z.shiftr_div_pow2 by lia. change (2 ^ 10) with 1024.
  rewrite (Z.mod_small (n / 1024)) by exact Hhi.
  repeat split; try lia; apply lor_surrogate; auto.
Qed.

(** The escape of one character reads as its UTF-16 code units. *)
Lemma scan_escape_char (c : Z) (items : list (list Z)) (cur : list Z) (rest : str) :
  is_code_point c = true ->
  json_scan InString items cur (escape_char c ++ rest)
  = json_scan InString items (rev (utf16_cp c) ++ cur) rest.
Proof.
  intros Hc. unfold is_code_point in Hc. apply andb_true_iff in Hc as [Hlo Hhi].
  apply Z.leb_le in Hlo. apply Z.ltb_lt in Hhi.
  unfold escape_char.
  destruct (c =? 92) eqn:E92; [apply Z.eqb_eq in E92; subst; reflexivity|].
  destruct (c =? 34) eqn:E34; [apply Z.eqb_eq in E34; subst; reflexivity|].
  destruct (c =? 8) eqn:E8; [apply Z.eqb_eq in E8; subst; reflexivity|].
  destruct (c =? 12) eqn:E12; [apply Z.eqb_eq in E12; subst; reflexivity|].
  destruct (c =? 10) eqn:E10; [apply Z.eqb_eq in E10; subst; reflexivity|].
  destruct (c =? 13) eqn:E13; [apply Z.eqb_eq in E13; subst; reflexivity|].
  destruct (c =? 9) eqn:E9; [apply Z.eqb_eq in E9; subst; reflexivity|].
  destruct ((32 <=? c) && (c <=? 126)) eqn:Eplain.
  - apply andb_true_iff in Eplain as [H32 H126].
    apply Z.leb_le in H32, H126.
    cbn [app json_scan]. rewrite E34, E92.
    replace (c <? 32) with false by (symmetry; apply Z.ltb_ge; lia).
    unfold utf16_cp.
    replace (c <? 65536) with true by (symmetry; apply Z.ltb_lt; lia).
    reflexivity.
  - destruct (c <? 65536) eqn:Ebmp.
    + apply Z.ltb_lt in Ebmp. rewrite scan_u_escape by lia.
      unfold utf16_cp.
      replace (c <? 65536) with true by (symmetry; apply Z.ltb_lt; lia).
      reflexivity.
    + apply Z.ltb_ge in Ebmp.
      destruct (surrogate_pair c ltac:(lia)) as (H1 & H2 & H3 & H4).
      cbv zeta in H1, H2, H3, H4. cbv zeta. rewrite H1, H2, <- app_assoc.
      rewrite !scan_u_escape by lia.
      unfold utf16_cp.
      replace (c <? 65536) with false by (symmetry; apply Z.ltb_ge; lia).
      reflexivity.
Qed.

Lemma scan_escaped (s : str) (items : list (list Z)) (cur : list Z) (rest : str) :
  forallb is_code_point s = true ->
  json_scan InString items cur (flat_map escape_char s ++ rest)
  = json_scan InString items (rev (utf16 s) ++ cur) rest.
Proof.
  revert cur; induction s as [|c r IH]; intros cur Hs; [reflexivity|].
  simpl in Hs. apply andb_true_iff in Hs as [Hc Hr].
  cbn [flat_map]. rewrite <- app_assoc, scan_escape_char by exact Hc.
  rewrite IH by exact Hr. unfold utf16. cbn [flat_map].
  now rewrite rev_app_distr, <- app_assoc.
Qed.

(** One encoded string, from its opening quote to its closing quote. *)
Lemma scan_string (s : str) (items : list (list Z)) (cur : list Z) (rest : str)
                  (st : json_state) :
  st = BeforeFirst \/ st = BeforeNext ->
  forallb is_code_point s = true ->
  json_scan st items cur (encode_basestring_ascii s ++ rest)
  = json_scan AfterString (utf16 s :: items) [] rest.
Proof.
  intros Hst Hs. unfold encode_basestring_ascii, DQ.
  rewrite <- !app_assoc.
  assert (Hin : json_scan st items cur
                  ([34] ++ flat_map escape_char s ++ [34] ++ rest)
                = json_scan InString items []
                    (flat_map escape_char s ++ [34] ++ rest)).
  { destruct Hst; subst st; reflexivity. }
  rewrite Hin, scan_escaped by exact Hs.
  cbn [app json_scan]. change (34 =? 34) with true. cbv iota.
  now rewrite app_nil_r, rev_involutive.
Qed.

(** The strings after the first one, each with its separator. *)
Lemma scan_more (l : list str) (items : list (list Z)) :
  forallb (forallb is_code_point) l = true ->
  json_scan AfterString items []
    (flat_map (fun s => lit ", " ++ encode_basestring_ascii s) l ++ lit "]")
  = Some (rev items ++ map utf16 l).
Proof.
  revert items; induction l as [|s l IH]; intros items Hl.
  - simpl. now rewrite app_nil_r.
  - simpl in Hl. apply andb_true_iff in Hl as [Hs Hl].
    cbn [flat_map]. rewrite <- !app_assoc.
    change (json_scan AfterString items []
              (lit ", " ++ encode_basestring_ascii s
               ++ flat_map (fun s0 => lit ", " ++ encode_basestring_ascii s0) l
               ++ lit "]"))
      with (json_scan BeforeNext items []
              (encode_basestring_ascii s
               ++ flat_map (fun s0 => lit ", " ++ encode_basestring_ascii s0) l
               ++ lit "]")).
    rewrite scan_string by (auto || exact Hs).
    rewrite IH by exact Hl. cbn [rev map]. now rewrite <- app_assoc.
Qed.

Lemma str_join_comma (x : str) (l : list str) :
  str_join (lit ", ") (x :: l)
  = x ++ flat_map (fun s => lit ", " ++ s) l.
Proof.
  revert x; induction l as [|y l IH]; intros x.
  - simpl. now rewrite app_nil_r.
  - change (str_join (lit ", ") (x :: y :: l))
      with (x ++ lit ", " ++ str_join (lit ", ") (y :: l)).
    rewrite IH. cbn [flat_map]. now rewrite <- app_assoc.
Qed.

(** What [json.dumps] writes for a list of strings, the reader of the page
    reads as that list. *)
Lemma json_parse_dumps (obj : list str) :
  forallb (forallb is_code_point) obj = true ->
  json_parse (json_dumps obj) = Some (map utf16 obj).
Proof.
  intros H. unfold json_parse, json_dumps.
  destruct obj as [|s l]; [reflexivity|].
  simpl in H. apply andb_true_iff in H as [Hs Hl].
  cbn [map]. rewrite str_join_comma, flat_map_concat_map, map_map.
  rewrite <- flat_map_concat_map, <- app_assoc.
  change (json_scan BeforeArray [] []
            (lit "[" ++ encode_basestring_ascii s
             ++ flat_map (fun x => lit ", " ++ encode_basestring_ascii x) l
             ++ lit "]"))
    with (json_scan BeforeFirst [] []
            (encode_basestring_ascii s
             ++ flat_map (fun x => lit ", " ++ encode_basestring_ascii x) l
             ++ lit "]")).
  rewrite scan_string by (auto || exact Hs).
  now rewrite scan_more by exact Hl.
Qed.

(** ** The playlist endpoint *)

Lemma simple_names_code_points (names : list str) :
  forallb simple_name names = true ->
  forallb (forallb is_code_point) (playlist names) = true.
Proof.
  intros H. apply forallb_forall. intros f Hf.
  apply playlist_In in Hf as [Hf _].
  rewrite forallb_forall in H. specialize (H f Hf).
  unfold simple_name in H. now apply andb_true_iff in H as [_ H].
Qed.



(** ** The page responder *)

Lemma PLAYER_HTML_encodes : exists b, str_encode PLAYER_HTML = Some b.
Proof.
  destruct (str_encode PLAYER_HTML) as [b|] eqn:Henc.
  - now exists b.
  - vm_compute in Henc. discriminate.
Qed.


(** ** Splitting and joining *)

Lemma str_split_nonempty (sep : Z) (s : str) : str_split sep s <> [].
Proof.
  destruct s as [|c r]; simpl; [discriminate|].
  destruct (c =? sep); [discriminate|].
  destruct (str_split sep r); discriminate.
Qed.

Lemma split_sep_free (sep : Z) (s : str) :
  Forall (fun w => str_contains sep w = false) (str_split sep s).
Proof.
  induction s as [|c r IH]; simpl.
  - repeat constructor.
  - destruct (c =? sep) eqn:Hc.
    + constructor; [reflexivity|exact IH].
    + destruct (str_split sep r) as [|w ws]; [repeat constructor|].
      * simpl. now rewrite Z.eqb_sym, Hc.
      * inversion IH as [|? ? Hw Hws]; subst. constructor; [|exact Hws].
        simpl. now rewrite Z.eqb_sym, Hc.
Qed.

Lemma split_no_sep (sep : Z) (w : str) :
  str_contains sep w = false -> str_split sep w = [w].
Proof.
  induction w as [|c r IH]; simpl; [reflexivity|].
  intros H. apply orb_false_iff in H as [Hc Hr].
  rewrite Z.eqb_sym, Hc. now rewrite IH.
Qed.

Lemma split_app_sep (sep : Z) (a b : str) :
  str_contains sep a = false ->
  str_split sep (a ++ sep :: b) = a :: str_split sep b.
Proof.
  induction a as [|c r IH]; simpl.
  - intros _. now rewrite Z.eqb_refl.
  - intros H. apply orb_false_iff in H as [Hc Hr].
    rewrite Z.eqb_sym, Hc. now rewrite IH.
Qed.

Lemma split_join (sep : Z) (comps : list str) :
  comps <> [] ->
  Forall (fun w => str_contains sep w = false) comps ->
  str_split sep (str_join [sep] comps) = comps.
Proof.
  induction comps as [|c rest IH]; [congruence|].
  intros _ Hall. inversion Hall as [|? ? Hc Hrest]; subst.
  destruct rest as [|d rest'].
  - simpl. now apply split_no_sep.
  - change (str_join [sep] (c :: d :: rest'))
      with (c ++ sep :: str_join [sep] (d :: rest')).
    rewrite split_app_sep by exact Hc.
    f_equal. apply IH; [discriminate|exact Hrest].
Qed.

Lemma str_join_snoc (sep : Z) (comps : list str) (w : str) :
  comps <> [] ->
  str_join [sep] (comps ++ [w]) = str_join [sep] comps ++ sep :: w.
Proof.
  induction comps as [|c rest IH]; [congruence|].
  intros _. destruct rest as [|d rest'].
  - reflexivity.
  - change (str_join [sep] ((c :: d :: rest') ++ [w]))
      with (c ++ sep :: str_join [sep] ((d :: rest') ++ [w])).
    rewrite IH by discriminate.
    change (str_join [sep] (c :: d :: rest'))
      with (c ++ sep :: str_join [sep] (d :: rest')).
    now rewrite <- app_assoc.
Qed.

(** ** Suffixes *)

Lemma endswith_suffix (s suffix : str) :
  str_endswith s suffix = true -> exists pre, s = pre ++ suffix.
Proof.
  unfold str_endswith. intros H. apply str_eqb_eq in H.
  exists (firstn (List.length s - List.length suffix) s).
  rewrite <- H at 2. symmetry. apply firstn_skipn.
Qed.

Lemma suffix_endswith (pre suffix : str) :
  str_endswith (pre ++ suffix) suffix = true.
Proof.
  unfold str_endswith. rewrite length_app.
  replace (List.length pre + List.length suffix - List.length suffix)%nat
    with (List.length pre + 0)%nat by lia.
  rewrite skipn_app, Nat.add_0_r, skipn_all.
  replace (List.length pre - List.length pre)%nat with 0%nat by lia.
  simpl. apply str_eqb_refl.
Qed.

Lemma endswith_last (s : str) (x y : Z) :
  str_endswith (s ++ [x]) [y] = (x =? y).
Proof.
  destruct (x =? y) eqn:Hxy.
  - apply Z.eqb_eq in Hxy. subst. apply suffix_endswith.
  - destruct (str_endswith (s ++ [x]) [y]) eqn:He; [|reflexivity].
    apply endswith_suffix in He as [pre Hpre].
    apply app_inj_tail in Hpre as [_ ->]. now rewrite Z.eqb_refl in Hxy.
Qed.

Lemma split_app (sep : Z) (a b : str) :
  str_split sep (a ++ sep :: b)
  = removelast (str_split sep a)
    ++ [last (str_split sep a) []] ++ str_split sep b.
Proof.
  induction a as [|c r IH]; simpl.
  - now rewrite Z.eqb_refl.
  - destruct (c =? sep) eqn:Hc.
    + rewrite IH.
      destruct (str_split sep r) as [|w ws] eqn:Hs;
        [now apply str_split_nonempty in Hs|reflexivity].
    + rewrite IH.
      destruct (str_split sep r) as [|w ws] eqn:Hs;
        [now apply str_split_nonempty in Hs|].
      destruct ws as [|w' ws']; reflexivity.
Qed.

Lemma split_snoc_sep (sep : Z) (a b : str) :
  str_split sep (a ++ sep :: b) = str_split sep a ++ str_split sep b.
Proof.
  rewrite split_app.
  rewrite (app_removelast_last [] (str_split_nonempty sep a)) at 3.
  now rewrite <- app_assoc.
Qed.

(** ** Walking down the tree *)

Lemma plain_word_facts (w : str) :
  plain_word w = true ->
  str_eqb w [] = false /\ str_eqb w curdir = false
  /\ str_eqb w pardir = false /\ str_contains SEP w = false.
Proof.
  unfold plain_word. intros H.
  repeat (apply andb_true_iff in H as [H ?]).
  repeat match goal with
         | X : negb _ = true |- _ => apply negb_true_iff in X
         end.
  auto.
Qed.

Lemma simple_name_plain (w : str) : simple_name w = true -> plain_word w = true.
Proof.
  unfold simple_name. intros H.
  apply andb_true_iff in H as [H _]. apply andb_true_iff in H as [H _].
  now apply andb_true_iff in H as [H _].
Qed.

Lemma find_app (n : node) (a b : list str) :
  find n (a ++ b) = match find n a with
                    | Some m => find m b
                    | None => None
                    end.
Proof.
  revert n; induction a as [|c a IH]; intros n; simpl; [reflexivity|].
  destruct n as [|r es]; [reflexivity|].
  destruct (lookup c es); [apply IH|reflexivity].
Qed.

Lemma find_under_dir (n : node) (a b : list str) (x : node) :
  find n (a ++ b) = Some x -> b <> [] -> is_dir (find n a) = true.
Proof.
  rewrite find_app. destruct (find n a) as [[|r es]|]; try discriminate.
  - destruct b; [congruence|discriminate].
  - reflexivity.
Qed.

Lemma is_dir_prefix (n : node) (a b : list str) :
  is_dir (find n (a ++ b)) = true -> is_dir (find n a) = true.
Proof.
  destruct b as [|c b].
  - now rewrite app_nil_r.
  - intros H. destruct (find n (a ++ c :: b)) as [x|] eqn:Hf; [|discriminate].
    eapply find_under_dir; [exact Hf|discriminate].
Qed.

Section Walk.

Variable root : node.

Lemma walk_app (cur : list str) (l1 l2 : list str) :
  walk root cur (l1 ++ l2) = match walk root cur l1 with
                             | Some q => walk root q l2
                             | None => None
                             end.
Proof.
  revert cur; induction l1 as [|c l1 IH]; intros cur; simpl; [reflexivity|].
  destruct (is_dir (find root cur)); [|reflexivity].
  destruct (str_eqb c [] || str_eqb c curdir); [apply IH|].
  destruct (str_eqb c pardir); apply IH.
Qed.

Lemma walk_step_empty (cur : list str) (l : list str) :
  walk root cur ([] :: l)
  = if is_dir (find root cur) then walk root cur l else None.
Proof. reflexivity. Qed.

Lemma walk_step_plain (cur : list str) (c : str) (l : list str) :
  plain_word c = true ->
  walk root cur (c :: l)
  = if is_dir (find root cur) then walk root (cur ++ [c]) l else None.
Proof.
  intros H. apply plain_word_facts in H as (H0 & H1 & H2 & _).
  simpl. now rewrite H0, H1, H2.
Qed.


(** A walk that is to end in a directory goes through. *)
Lemma walk_into_dir (l : list str) :
  forallb empty_or_plain l = true ->
  forall cur, is_dir (find root (cur ++ filter nonempty l)) = true ->
              walk root cur l = Some (cur ++ filter nonempty l).
Proof.
  induction l as [|c l IH]; intros Hall cur H.
  - simpl in *. now rewrite app_nil_r.
  - simpl in Hall. apply andb_true_iff in Hall as [Hc Hl].
    assert (Hcur : is_dir (find root cur) = true) by now apply is_dir_prefix in H.
    unfold empty_or_plain in Hc. apply orb_true_iff in Hc as [Hc|Hc].
    + apply str_eqb_eq in Hc. subst c. rewrite walk_step_empty, Hcur.
      cbn [filter] in *. unfold nonempty in H at 1. unfold nonempty at 1.
      simpl in *. now apply IH.
    + rewrite walk_step_plain by exact Hc.
      rewrite Hcur. apply plain_word_facts in Hc as (H0 & _).
      cbn [filter] in *. unfold nonempty in H at 1. unfold nonempty at 1.
      rewrite H0 in *. simpl in *.
      replace (cur ++ c :: filter nonempty l)
        with ((cur ++ [c]) ++ filter nonempty l) in * by now rewrite <- app_assoc.
      now apply IH.
Qed.

(** One more plain word below a directory. *)
Lemma walk_to_child (l : list str) (w : str) (cur : list str) :
  forallb empty_or_plain l = true ->
  plain_word w = true ->
  is_dir (find root (cur ++ filter nonempty l)) = true ->
  walk root cur (l ++ [w]) = Some (cur ++ filter nonempty l ++ [w]).
Proof.
  intros Hall Hw Hdir. rewrite walk_app, (walk_into_dir l Hall cur Hdir).
  rewrite walk_step_plain by exact Hw. rewrite Hdir. simpl.
  now rewrite <- app_assoc.
Qed.

End Walk.

(** ** The paths [translate_path] builds *)

Lemma plain_words_sep_free (comps : list str) :
  forallb plain_word comps = true ->
  Forall (fun w => str_contains SEP w = false) comps.
Proof.
  intros H. apply Forall_forall. intros w Hw.
  rewrite forallb_forall in H. specialize (H w Hw).
  now apply plain_word_facts in H.
Qed.

Lemma split_abs_path (comps : list str) :
  forallb plain_word comps = true ->
  str_split SEP (abs_path comps) = [] :: tail_split comps.
Proof.
  intros H. unfold abs_path.
  change (SEP :: str_join [SEP] comps) with ([] ++ SEP :: str_join [SEP] comps).
  rewrite split_app_sep by reflexivity. f_equal.
  destruct comps as [|c rest]; [reflexivity|].
  apply split_join; [discriminate|now apply plain_words_sep_free].
Qed.

Lemma tail_split_tidy (comps : list str) :
  forallb plain_word comps = true ->
  forallb empty_or_plain (tail_split comps) = true
  /\ filter nonempty (tail_split comps) = comps.
Proof.
  intros H. destruct comps as [|c rest]; [split; reflexivity|].
  unfold tail_split. split.
  - rewrite forallb_forall in *. intros w Hw. unfold empty_or_plain.
    rewrite (H w Hw). apply orb_true_r.
  - apply forallb_filter_id. rewrite forallb_forall in *. intros w Hw.
    unfold nonempty. specialize (H w Hw). apply plain_word_facts in H.
    destruct H as [-> _]. reflexivity.
Qed.

Lemma plain_word_not_abs (w : str) :
  plain_word w = true -> str_startswith w [SEP] = false.
Proof.
  intros H. apply plain_word_facts in H as (H0 & _ & _ & Hs).
  destruct w as [|c r]; [reflexivity|].
  unfold str_contains in Hs. cbn [existsb] in Hs.
  apply orb_false_iff in Hs as [Hc _].
  cbn [str_startswith]. rewrite Z.eqb_sym, Hc. reflexivity.
Qed.

Lemma plain_word_last (w : str) :
  plain_word w = true -> exists pre x, w = pre ++ [x] /\ x <> SEP.
Proof.
  intros H. apply plain_word_facts in H as (H0 & _ & _ & Hs).
  destruct (exists_last (l := w)) as (pre & x & ->).
  { intros ->. discriminate. }
  exists pre, x. split; [reflexivity|].
  intros ->. unfold str_contains in Hs. rewrite existsb_app in Hs.
  apply orb_false_iff in Hs as [_ Hs]. cbn [existsb] in Hs.
  now rewrite Z.eqb_refl in Hs.
Qed.

Lemma abs_path_no_slash_end (comps : list str) :
  forallb plain_word comps = true ->
  comps <> [] ->
  str_endswith (abs_path comps) [SEP] = false.
Proof.
  intros H Hne.
  destruct (exists_last Hne) as (pre & w & ->).
  rewrite forallb_app in H. apply andb_true_iff in H as [_ Hw].
  simpl in Hw. apply andb_true_iff in Hw as [Hw _].
  apply plain_word_last in Hw as (u & x & -> & Hx).
  assert (exists s, abs_path (pre ++ [u ++ [x]]) = s ++ [x]) as [s Hs].
  { unfold abs_path. destruct pre as [|p pre'].
    - exists (SEP :: u). reflexivity.
    - rewrite str_join_snoc by discriminate.
      exists (SEP :: str_join [SEP] (p :: pre') ++ SEP :: u).
      simpl. now rewrite <- app_assoc. }
  rewrite Hs, endswith_last. now apply Z.eqb_neq.
Qed.

(** [os.path.join] adds one plain word to an absolute path. *)
Lemma join_abs_path (comps : list str) (w : str) :
  forallb plain_word comps = true ->
  plain_word w = true ->
  path_join (abs_path comps) w = abs_path (comps ++ [w]).
Proof.
  intros Hc Hw. unfold path_join.
  rewrite (plain_word_not_abs w Hw).
  change (str_eqb (abs_path comps) []) with false. cbn [orb].
  destruct comps as [|c rest].
  - reflexivity.
  - rewrite abs_path_no_slash_end by (assumption || discriminate).
    unfold abs_path. rewrite str_join_snoc by discriminate.
    reflexivity.
Qed.

Lemma fold_join_abs_path (ws comps : list str) :
  forallb plain_word comps = true ->
  forallb plain_word ws = true ->
  fold_left path_join ws (abs_path comps) = abs_path (comps ++ ws).
Proof.
  revert comps; induction ws as [|w ws IH]; intros comps Hc Hw; simpl.
  - now rewrite app_nil_r.
  - simpl in Hw. apply andb_true_iff in Hw as [Hw Hws].
    rewrite join_abs_path by assumption.
    rewrite IH; [now rewrite <- app_assoc| |exact Hws].
    rewrite forallb_app, Hc. simpl. now rewrite Hw.
Qed.

Lemma fold_left_ignoring (ws : list str) (d : str) :
  fold_left (fun path word => if ignored_word word then path
                              else path_join path word) ws d
  = fold_left path_join (filter (fun word => negb (ignored_word word)) ws) d.
Proof.
  revert d; induction ws as [|w ws IH]; intros d; simpl; [reflexivity|].
  destruct (ignored_word w); simpl; apply IH.
Qed.

Lemma kept_words_plain (path : str) :
  forallb plain_word (kept_words path) = true.
Proof.
  unfold kept_words. apply forallb_forall. intros w Hw.
  apply filter_In in Hw as [Hw Hkeep]. apply filter_In in Hw as [Hw Hne].
  pose proof (split_sep_free SEP (decoded_path path)) as Hfree.
  rewrite Forall_forall in Hfree. specialize (Hfree w Hw).
  unfold ignored_word in Hkeep. apply negb_true_iff in Hkeep.
  apply orb_false_iff in Hkeep as [Hkeep Hpar].
  apply orb_false_iff in Hkeep as [_ Hcur].
  unfold plain_word. rewrite Hne, Hcur, Hpar, Hfree. reflexivity.
Qed.

(** [translate_path] returns the working directory followed by the kept
    words, with a slash at the end if the target had one. *)
Lemma translate_path_shape (cwd : list str) (path : str) :
  forallb plain_word cwd = true ->
  translate_path (abs_path cwd) path
  = abs_path (cwd ++ kept_words path)
    ++ (if trailing_slash path then [SEP] else []).
Proof.
  intros Hcwd. unfold translate_path.
  fold (target_path path). fold (trailing_slash path).
  fold (decoded_path path).
  change (fun path0 word : str =>
            if negb (str_eqb (dirname word) [])
               || str_eqb word curdir || str_eqb word pardir
            then path0 else path_join path0 word)
    with (fun path0 word : str =>
            if ignored_word word then path0 else path_join path0 word).
  rewrite fold_left_ignoring. fold (kept_words path).
  rewrite fold_join_abs_path by (assumption || apply kept_words_plain).
  destruct (trailing_slash path); [reflexivity|now rewrite app_nil_r].
Qed.

(** ** Resolving the paths of the static file handler *)

Section Resolve.

Variable E : env.

Lemma resolve_absolute (p : str) :
  str_startswith p [SEP] = true ->
  path_error p = None ->
  resolve E p = match walk (fs E) [] (str_split SEP p) with
                | Some q => find (fs E) q
                | None => None
                end.
Proof.
  intros Habs Herr. unfold resolve. rewrite Herr.
  destruct p as [|c r]; [discriminate|].
  cbn [str_startswith] in Habs. apply andb_true_iff in Habs as [Hc _].
  now rewrite Hc.
Qed.



Lemma resolve_child (p : str) (comps : list str) (w : str) :
  names_child p comps w -> plain_word w = true -> path_error p = None ->
  is_dir (find (fs E) comps) = true ->
  resolve E p = find (fs E) (comps ++ [w]).
Proof.
  intros (Habs & l & Hsplit & Hall & <-) Hw Herr Hdir.
  rewrite resolve_absolute by assumption. rewrite Hsplit.
  now rewrite (walk_to_child (fs E) l w [] Hall Hw Hdir).
Qed.


End Resolve.

Ltac starts_with_sep :=
  unfold abs_path; cbn [app str_startswith]; now rewrite Z.eqb_refl.




Lemma names_child_join (comps : list str) (slash : bool) (w : str) :
  forallb plain_word comps = true ->
  plain_word w = true ->
  names_child (path_join (abs_path comps ++ (if slash then [SEP] else [])) w)
              comps w.
Proof.
  intros H Hw. destruct slash.
  - assert (Hj : path_join (abs_path comps ++ [SEP]) w
                 = abs_path comps ++ SEP :: w).
    { unfold path_join. rewrite (plain_word_not_abs w Hw).
      rewrite suffix_endswith, orb_true_r. now rewrite <- app_assoc. }
    rewrite Hj. split; [starts_with_sep|].
    exists ([] :: tail_split comps).
    destruct (tail_split_tidy comps H) as [Hall Hf].
    split; [|split; [exact Hall|exact Hf]].
    rewrite split_snoc_sep, split_abs_path by exact H.
    apply plain_word_facts in Hw as (_ & _ & _ & Hs).
    now rewrite (split_no_sep SEP w Hs).
  - rewrite app_nil_r, join_abs_path by assumption.
    split; [starts_with_sep|].
    exists ([] :: comps). split; [|split].
    + rewrite split_abs_path.
      * destruct comps; reflexivity.
      * rewrite forallb_app, H. simpl. now rewrite Hw.
    + simpl. rewrite forallb_forall in *. intros c Hc.
      unfold empty_or_plain. rewrite (H c Hc). apply orb_true_r.
    + simpl. unfold nonempty at 1. simpl.
      apply forallb_filter_id. rewrite forallb_forall in *. intros c Hc.
      specialize (H c Hc). apply plain_word_facts in H as [H0 _].
      unfold nonempty. now rewrite H0.
Qed.

(** ** Running the static file handler *)

Section Static.

Variable L : library.
Variable E : env.
Variable self : request.








End Static.

Lemma wf_env_plain (E : env) :
  wf_env E = true -> forallb plain_word (cwd E) = true.
Proof.
  unfold wf_env. intros H. apply andb_true_iff in H as [H _].
  rewrite forallb_forall in *. intros w Hw. now apply simple_name_plain, H.
Qed.

Section Confinement.

Variable L : library.
Variable E : env.
Variable self : request.
Hypothesis Hwf : wf_env E = true.

Let ws := kept_words (self_path self).
Let slash := if trailing_slash (self_path self) then [SEP] else [].
Let P := abs_path (cwd E ++ ws) ++ slash.

Lemma translate_path_getcwd :
  translate_path (getcwd E) (self_path self) = P.
Proof.
  unfold getcwd. fold (abs_path (cwd E)).
  now rewrite translate_path_shape by now apply wf_env_plain.
Qed.






End Confinement.

(** ** UTF-8: decoding undoes encoding *)

Lemma testbit_small (x k i : Z) : 0 <= x < 2 ^ k -> 0 <= k <= i -> Z.testbit x i = false.
Proof.
  intros Hx Hk. rewrite <- (Z.mod_small x (2 ^ k)) by exact Hx.
  apply Z.mod_pow2_bits_high. lia.
Qed.

Lemma lor_low (m x k : Z) :
  0 <= k -> 0 <= x < 2 ^ k -> Z.lor (m * 2 ^ k) x = m * 2 ^ k + x.
Proof.
  intros Hk Hx.
  assert (Hland : Z.land (m * 2 ^ k) x = 0).
  { apply Z.bits_inj'. intros i Hi. rewrite Z.land_spec, Z.bits_0.
    destruct (Z.ltb_spec i k).
    - rewrite Z.mul_pow2_bits_low by lia. reflexivity.
    - rewrite (testbit_small x k i) by lia. apply andb_false_r. }
  rewrite <- Z.lxor_lor by exact Hland.
  symmetry. apply Z.add_nocarry_lxor. exact Hland.
Qed.

Lemma cont_byte (x : Z) :
  0 <= x < 64 ->
  Z.lor 0x80 x = 128 + x /\ is_cont (128 + x) = true
  /\ Z.land (128 + x) 0x3F = x.
Proof.
  intros Hx. split; [|split].
  - change 0x80 with (2 * 2 ^ 6). rewrite lor_low by lia. reflexivity.
  - unfold is_cont. apply andb_true_iff. split; apply Z.leb_le; lia.
  - change 0x3F with (Z.ones 6). rewrite Z.land_ones by lia.
    change (2 ^ 6) with 64. replace (128 + x) with (x + 2 * 64) by lia.
    rewrite Z.mod_add by lia. apply Z.mod_small. lia.
Qed.

Lemma lead_byte (m k x : Z) :
  0 <= k -> 0 <= x < 2 ^ k ->
  Z.lor (m * 2 ^ k) x = m * 2 ^ k + x
  /\ Z.land (m * 2 ^ k + x) (Z.ones k) = x.
Proof.
  intros Hk Hx. split; [now apply lor_low|].
  rewrite Z.land_ones by lia. rewrite Z.add_comm, Z.mod_add by lia.
  apply Z.mod_small. lia.
Qed.

Lemma six_bits (c k : Z) :
  0 <= k -> Z.land (Z.shiftr c k) 0x3F = (c / 2 ^ k) mod 64.
Proof.
  intros Hk. change 0x3F with (Z.ones 6). rewrite Z.land_ones by lia.
  now rewrite Z.shiftr_div_pow2 by exact Hk.
Qed.

Lemma decode_1 (c : Z) (tl : bytes) :
  0 <= c < 0x80 -> utf8_head c tl = Good c 1.
Proof.
  intros Hc. unfold utf8_head.
  now replace (c <? 128) with true by (symmetry; apply Z.ltb_lt; lia).
Qed.

Ltac ltb_true := symmetry; apply Z.ltb_lt; lia.
Ltac ltb_false := symmetry; apply Z.ltb_ge; lia.

Lemma decode_2 (c : Z) (tl : bytes) :
  0x80 <= c < 0x800 ->
  utf8_head (Z.lor 0xC0 (Z.shiftr c 6)) (Z.lor 0x80 (Z.land c 0x3F) :: tl)
  = Good c 2.
Proof.
  intros Hc.
  rewrite Z.shiftr_div_pow2 by lia. change (2 ^ 6) with 64.
  change (Z.land c 0x3F) with (Z.land c (Z.ones 6)).
  rewrite Z.land_ones by lia. change (2 ^ 6) with 64.
  assert (Ha : 2 <= c / 64 < 32).
  { split; [apply Z.div_le_lower_bound; lia|apply Z.div_lt_upper_bound; lia]. }
  assert (Hd : 0 <= c mod 64 < 64) by (apply Z.mod_pos_bound; lia).
  destruct (cont_byte (c mod 64) Hd) as (-> & Hcont & Hland).
  destruct (lead_byte 6 5 (c / 64) ltac:(lia) ltac:(change (2 ^ 5) with 32; lia))
    as [Hlor Hlead].
  change (6 * 2 ^ 5) with 0xC0 in Hlor, Hlead. rewrite Hlor.
  unfold utf8_head.
  replace (192 + c / 64 <? 128) with false by ltb_false.
  replace (192 + c / 64 <? 194) with false by ltb_false.
  replace (192 + c / 64 <? 224) with true by ltb_true.
  rewrite Hcont. unfold cp2.
  change 0x1F with (Z.ones 5). rewrite Hlead, Hland.
  rewrite Z.shiftl_mul_pow2, lor_low by lia. change (2 ^ 6) with 64.
  f_equal. pose proof (Z.div_mod c 64 ltac:(lia)). lia.
Qed.

Lemma decode_3 (c : Z) (tl : bytes) :
  0x800 <= c < 0x10000 -> ~ 0xD800 <= c <= 0xDFFF ->
  utf8_head (Z.lor 0xE0 (Z.shiftr c 12))
            (Z.lor 0x80 (Z.land (Z.shiftr c 6) 0x3F)
             :: Z.lor 0x80 (Z.land c 0x3F) :: tl)
  = Good c 3.
Proof.
  intros Hc Hs.
  rewrite six_bits by lia. change (2 ^ 6) with 64.
  rewrite Z.shiftr_div_pow2 by lia. change (2 ^ 12) with 4096.
  change (Z.land c 0x3F) with (Z.land c (Z.ones 6)).
  rewrite Z.land_ones by lia. change (2 ^ 6) with 64.
  assert (Ha : 0 <= c / 4096 < 16).
  { split; [apply Z.div_pos; lia|apply Z.div_lt_upper_bound; lia]. }
  assert (Hb : 0 <= (c / 64) mod 64 < 64) by (apply Z.mod_pos_bound; lia).
  assert (Hd : 0 <= c mod 64 < 64) by (apply Z.mod_pos_bound; lia).
  destruct (cont_byte _ Hb) as (-> & Hcont1 & Hland1).
  destruct (cont_byte _ Hd) as (-> & Hcont2 & Hland2).
  destruct (lead_byte 14 4 (c / 4096) ltac:(lia)
              ltac:(change (2 ^ 4) with 16; lia)) as [Hlor Hlead].
  change (14 * 2 ^ 4) with 0xE0 in Hlor, Hlead. rewrite Hlor.
  assert (Hok : second_ok (224 + c / 4096) (128 + (c / 64) mod 64) = true).
  { unfold second_ok. rewrite Hcont1.
    replace ((224 + c / 4096 =? 224) && (128 + (c / 64) mod 64 <? 160))
      with false.
    2:{ symmetry. apply andb_false_iff.
        destruct (Z.eqb_spec (224 + c / 4096) 224) as [He|]; [right|now left].
        apply Z.ltb_ge. Z.div_mod_to_equations. lia. }
    replace ((224 + c / 4096 =? 237) && (160 <=? 128 + (c / 64) mod 64))
      with false.
    2:{ symmetry. apply andb_false_iff.
        destruct (Z.eqb_spec (224 + c / 4096) 237) as [He|]; [right|now left].
        apply Z.leb_gt. Z.div_mod_to_equations. lia. }
    replace (224 + c / 4096 =? 240) with false
      by (symmetry; apply Z.eqb_neq; lia).
    replace (224 + c / 4096 =? 244) with false
      by (symmetry; apply Z.eqb_neq; lia).
    reflexivity. }
  unfold utf8_head.
  replace (224 + c / 4096 <? 128) with false by ltb_false.
  replace (224 + c / 4096 <? 194) with false by ltb_false.
  replace (224 + c / 4096 <? 224) with false by ltb_false.
  replace (224 + c / 4096 <? 240) with true by ltb_true.
  rewrite Hok, Hcont2. cbn [negb]. unfold cp3.
  change 0x0F with (Z.ones 4). rewrite Hlead, Hland1, Hland2.
  rewrite !Z.shiftl_mul_pow2 by lia.
  rewrite (lor_low ((c / 64) mod 64) (c mod 64) 6) by lia.
  rewrite lor_low by (change (2 ^ 12) with 4096; change (2 ^ 6) with 64; lia).
  f_equal. change (2 ^ 12) with 4096. change (2 ^ 6) with 64.
  Z.div_mod_to_equations. lia.
Qed.

Lemma decode_4 (c : Z) (tl : bytes) :
  0x10000 <= c < 0x110000 ->
  utf8_head (Z.lor 0xF0 (Z.shiftr c 18))
            (Z.lor 0x80 (Z.land (Z.shiftr c 12) 0x3F)
             :: Z.lor 0x80 (Z.land (Z.shiftr c 6) 0x3F)
             :: Z.lor 0x80 (Z.land c 0x3F) :: tl)
  = Good c 4.
Proof.
  intros Hc.
  rewrite !six_bits by lia. change (2 ^ 6) with 64. change (2 ^ 12) with 4096.
  rewrite Z.shiftr_div_pow2 by lia. change (2 ^ 18) with 262144.
  change (Z.land c 0x3F) with (Z.land c (Z.ones 6)).
  rewrite Z.land_ones by lia. change (2 ^ 6) with 64.
  assert (Ha : 0 <= c / 262144 < 8).
  { split; [apply Z.div_pos; lia|apply Z.div_lt_upper_bound; lia]. }
  assert (Hb : 0 <= (c / 4096) mod 64 < 64) by (apply Z.mod_pos_bound; lia).
  assert (He : 0 <= (c / 64) mod 64 < 64) by (apply Z.mod_pos_bound; lia).
  assert (Hd : 0 <= c mod 64 < 64) by (apply Z.mod_pos_bound; lia).
  destruct (cont_byte _ Hb) as (-> & Hcont1 & Hland1).
  destruct (cont_byte _ He) as (-> & Hcont2 & Hland2).
  destruct (cont_byte _ Hd) as (-> & Hcont3 & Hland3).
  destruct (lead_byte 30 3 (c / 262144) ltac:(lia)
              ltac:(change (2 ^ 3) with 8; lia)) as [Hlor Hlead].
  change (30 * 2 ^ 3) with 0xF0 in Hlor, Hlead. rewrite Hlor.
  assert (Hlt : c / 262144 < 5) by (apply Z.div_lt_upper_bound; lia).
  assert (Hok : second_ok (240 + c / 262144) (128 + (c / 4096) mod 64) = true).
  { unfold second_ok. rewrite Hcont1.
    replace (240 + c / 262144 =? 224) with false
      by (symmetry; apply Z.eqb_neq; lia).
    replace (240 + c / 262144 =? 237) with false
      by (symmetry; apply Z.eqb_neq; lia).
    replace ((240 + c / 262144 =? 240) && (128 + (c / 4096) mod 64 <? 144))
      with false.
    2:{ symmetry. apply andb_false_iff.
        destruct (Z.eqb_spec (240 + c / 262144) 240) as [Heq|]; [right|now left].
        apply Z.ltb_ge. Z.div_mod_to_equations. lia. }
    replace ((240 + c / 262144 =? 244) && (144 <=? 128 + (c / 4096) mod 64))
      with false.
    2:{ symmetry. apply andb_false_iff.
        destruct (Z.eqb_spec (240 + c / 262144) 244) as [Heq|]; [right|now left].
        apply Z.leb_gt. Z.div_mod_to_equations. lia. }
    reflexivity. }
  unfold utf8_head.
  replace (240 + c / 262144 <? 128) with false by ltb_false.
  replace (240 + c / 262144 <? 194) with false by ltb_false.
  replace (240 + c / 262144 <? 224) with false by ltb_false.
  replace (240 + c / 262144 <? 240) with false by ltb_false.
  replace (240 + c / 262144 <? 245) with true by ltb_true.
  rewrite Hok, Hcont2, Hcont3. cbn [negb]. unfold cp4.
  change 0x07 with (Z.ones 3). rewrite Hlead, Hland1, Hland2, Hland3.
  rewrite !Z.shiftl_mul_pow2 by lia.
  rewrite (lor_low ((c / 64) mod 64) (c mod 64) 6) by lia.
  rewrite (lor_low ((c / 4096) mod 64) _ 12)
    by (change (2 ^ 12) with 4096; change (2 ^ 6) with 64; lia).
  rewrite lor_low
    by (change (2 ^ 18) with 262144; change (2 ^ 12) with 4096;
        change (2 ^ 6) with 64; lia).
  f_equal. change (2 ^ 18) with 262144. change (2 ^ 12) with 4096.
  change (2 ^ 6) with 64. Z.div_mod_to_equations. lia.
Qed.

Lemma utf8_head_encode (c : Z) (b : bytes) :
  utf8_encode_cp c = Some b ->
  forall rest, exists b0 tl,
    b ++ rest = b0 :: tl /\ utf8_head b0 tl = Good c (List.length b).
Proof.
  unfold utf8_encode_cp. intros H rest.
  destruct (c <? 0) eqn:H0; [discriminate|]. apply Z.ltb_ge in H0.
  destruct (c <? 128) eqn:H1.
  { apply Z.ltb_lt in H1. injection H as <-. eexists _, _.
    split; [reflexivity|]. apply decode_1. lia. }
  apply Z.ltb_ge in H1. destruct (c <? 2048) eqn:H2.
  { apply Z.ltb_lt in H2. injection H as <-. eexists _, _.
    split; [reflexivity|]. apply decode_2. lia. }
  apply Z.ltb_ge in H2. destruct (c <? 65536) eqn:H3.
  { apply Z.ltb_lt in H3.
    destruct ((55296 <=? c) && (c <=? 57343)) eqn:Hs; [discriminate|].
    injection H as <-. eexists _, _. split; [reflexivity|].
    apply decode_3; [lia|]. intros [Hlo Hhi].
    apply Z.leb_le in Hlo, Hhi. rewrite Hlo, Hhi in Hs. discriminate. }
  apply Z.ltb_ge in H3. destruct (c <? 1114112) eqn:H4; [|discriminate].
  apply Z.ltb_lt in H4. injection H as <-. eexists _, _.
  split; [reflexivity|]. apply decode_4. lia.
Qed.

Lemma utf8_encode_cp_length (c : Z) (b : bytes) :
  utf8_encode_cp c = Some b -> (1 <= List.length b)%nat.
Proof.
  unfold utf8_encode_cp. intros H.
  repeat match type of H with
         | (if ?t then _ else _) = _ => destruct t
         end; try discriminate; injection H as <-; simpl; lia.
Qed.

(** Decoding undoes encoding. *)
Lemma decode_encode (e : errors) (s : str) :
  forall bs, str_encode s = Some bs ->
  forall fuel, (List.length bs <= fuel)%nat -> utf8_decode_fuel fuel e bs = Some s.
Proof.
  induction s as [|c r IH]; intros bs Hbs fuel Hfuel.
  - injection Hbs as <-. destruct fuel; reflexivity.
  - cbn [str_encode] in Hbs.
    destruct (utf8_encode_cp c) as [b|] eqn:Hc; [|discriminate].
    destruct (str_encode r) as [bs'|] eqn:Hr; [|discriminate].
    injection Hbs as <-.
    pose proof (utf8_encode_cp_length c b Hc) as Hlen.
    destruct (utf8_head_encode c b Hc bs') as (b0 & tl & Heq & Hhead).
    rewrite length_app in Hfuel.
    destruct fuel as [|fuel']; [lia|].
    rewrite Heq. cbn [utf8_decode_fuel]. rewrite Hhead, <- Heq.
    rewrite skipn_app, skipn_all, Nat.sub_diag. cbn [skipn app].
    rewrite (IH bs' eq_refl) by lia. reflexivity.
Qed.

Lemma bytes_decode_encode (e : errors) (s : str) (bs : bytes) :
  str_encode s = Some bs -> bytes_decode e bs = Some s.
Proof. intros H. unfold bytes_decode. now apply (decode_encode e s). Qed.



(** ** Targets that encode a path *)

Lemma last_index_none (c : Z) (s : str) (i found : nat) :
  str_contains c s = false -> last_index c s i found = found.
Proof.
  revert i; induction s as [|x r IH]; intros i H; simpl; [reflexivity|].
  unfold str_contains in H. cbn [existsb] in H.
  apply orb_false_iff in H as [Hx Hr].
  rewrite Z.eqb_sym, Hx. now apply IH.
Qed.

Lemma dirname_plain (w : str) : str_contains SEP w = false -> dirname w = [].
Proof.
  intros H. unfold dirname. now rewrite last_index_none.
Qed.

Lemma plain_word_kept (w : str) : plain_word w = true -> ignored_word w = false.
Proof.
  intros H. apply plain_word_facts in H as (_ & H1 & H2 & Hs).
  unfold ignored_word. now rewrite dirname_plain, H1, H2.
Qed.

Lemma normpath_comps_plain (i : nat) (comps acc : list str) :
  forallb plain_word comps = true ->
  normpath_comps i acc comps = rev acc ++ comps.
Proof.
  revert acc; induction comps as [|c rest IH]; intros acc H; simpl.
  - now rewrite app_nil_r.
  - simpl in H. apply andb_true_iff in H as [Hc Hrest].
    apply plain_word_facts in Hc as (H0 & H1 & H2 & _).
    rewrite H0, H1, H2. simpl. rewrite IH by exact Hrest.
    simpl. now rewrite <- app_assoc.
Qed.

Lemma str_join_head (sep : Z) (c : str) (rest : list str) :
  exists tl, str_join [sep] (c :: rest) = c ++ tl.
Proof.
  destruct rest as [|d rest'].
  - exists []. simpl. now rewrite app_nil_r.
  - now exists (sep :: str_join [sep] (d :: rest')).
Qed.

Lemma normpath_abs_path (comps : list str) :
  forallb plain_word comps = true -> comps <> [] ->
  normpath (abs_path comps) = abs_path comps.
Proof.
  intros H Hne. unfold normpath.
  rewrite split_abs_path by exact H.
  destruct comps as [|c rest]; [congruence|].
  cbn [abs_path tail_split].
  assert (Hstart : str_startswith (abs_path (c :: rest)) [SEP; SEP] = false).
  { simpl in H. apply andb_true_iff in H as [Hc _].
    apply plain_word_facts in Hc as (H0 & _ & _ & Hs).
    destruct (str_join_head SEP c rest) as [tl Htl]. unfold abs_path.
    rewrite Htl. destruct c as [|x c']; [discriminate|].
    unfold str_contains in Hs. cbn [existsb] in Hs.
    apply orb_false_iff in Hs as [Hx _].
    cbn [app str_startswith]. rewrite Z.eqb_refl, (Z.eqb_sym x), Hx.
    reflexivity. }
  replace (str_startswith (abs_path (c :: rest)) [SEP]) with true
    by (symmetry; starts_with_sep).
  rewrite Hstart. cbn [andb].
  change (normpath_comps 1 [] ([] :: c :: rest))
    with (normpath_comps 1 [] (c :: rest)).
  rewrite normpath_comps_plain by exact H. reflexivity.
Qed.

Lemma filter_plain_nonempty (comps : list str) :
  forallb plain_word comps = true ->
  filter (fun w => negb (str_eqb w [])) comps = comps.
Proof.
  intros H. apply forallb_filter_id. rewrite forallb_forall in *.
  intros w Hw. specialize (H w Hw). apply plain_word_facts in H as [-> _].
  reflexivity.
Qed.

Lemma filter_plain_kept (comps : list str) :
  forallb plain_word comps = true ->
  filter (fun word => negb (ignored_word word)) comps = comps.
Proof.
  intros H. apply forallb_filter_id. rewrite forallb_forall in *.
  intros w Hw. now rewrite plain_word_kept by now apply H.
Qed.

(** A target without [?] and [#] that decodes to a path of plain words is
    translated to exactly these words. *)
Lemma kept_words_decoded (t : str) (comps : list str) :
  forallb plain_word comps = true -> comps <> [] ->
  str_contains 63 t = false ->
  str_contains 35 t = false ->
  unquote_errors Surrogatepass t = Some (abs_path comps) ->
  target_path t = t /\ kept_words t = comps.
Proof.
  intros H Hne H63 H35 Hdec.
  assert (Ht : target_path t = t).
  { unfold target_path. rewrite !split1_item0.
    now rewrite (before_first_id 63), (before_first_id 35). }
  split; [exact Ht|].
  unfold kept_words, decoded_path. rewrite Ht, Hdec.
  rewrite normpath_abs_path, split_abs_path by assumption.
  destruct comps as [|c rest]; [congruence|].
  unfold tail_split.
  change (filter (fun w => negb (str_eqb w [])) ([] :: c :: rest))
    with (filter (fun w => negb (str_eqb w [])) (c :: rest)).
  now rewrite filter_plain_nonempty, filter_plain_kept.
Qed.

(** The name of an audio file ends with the digit 3. *)
Lemma is_audio_last (name : str) :
  is_audio name = true -> exists u, name = u ++ [51].
Proof.
  unfold is_audio. intros H. apply endswith_suffix in H as [pre Hpre].
  destruct (exists_last (l := name)) as (u & x & ->).
  { intros ->. destruct pre; discriminate. }
  exists u. f_equal. f_equal.
  unfold str_lower in Hpre. rewrite map_app in Hpre.
  change AUDIO_EXT with ([46; 109; 112] ++ [51]) in Hpre.
  rewrite app_assoc in Hpre. apply app_inj_tail in Hpre as [_ Hx].
  simpl in Hx. unfold lower_cp in Hx.
  destruct ((65 <=? x) && (x <=? 90)) eqn:Hcap; [|exact Hx].
  apply andb_true_iff in Hcap as [Hlo Hhi]. apply Z.leb_le in Hlo, Hhi. lia.
Qed.

Lemma abs_path_last (pre : list str) (u : str) (x : Z) :
  exists s, abs_path (pre ++ [u ++ [x]]) = s ++ [x].
Proof.
  unfold abs_path. destruct pre as [|p pre'].
  - exists (SEP :: u). reflexivity.
  - rewrite str_join_snoc by discriminate.
    exists (SEP :: str_join [SEP] (p :: pre') ++ SEP :: u).
    simpl. now rewrite <- app_assoc.
Qed.

Lemma rstrip_last (s : str) (x : Z) :
  is_space x = false -> str_rstrip (s ++ [x]) = s ++ [x].
Proof.
  intros H. unfold str_rstrip. rewrite rev_app_distr. simpl. rewrite H.
  change (x :: rev s) with (rev [x] ++ rev s).
  now rewrite <- rev_app_distr, rev_involutive.
Qed.

(** ** Paths the system accepts *)

Lemma existsb_str_join (f : Z -> bool) (sep : Z) (parts : list str) :
  f sep = false ->
  forallb (fun p => negb (existsb f p)) parts = true ->
  existsb f (str_join [sep] parts) = false.
Proof.
  intros Hsep. induction parts as [|p rest IH]; intros H; [reflexivity|].
  simpl in H. apply andb_true_iff in H as [Hp Hrest].
  apply negb_true_iff in Hp. destruct rest as [|q rest'].
  - exact Hp.
  - change (str_join [sep] (p :: q :: rest'))
      with (p ++ sep :: str_join [sep] (q :: rest')).
    rewrite existsb_app, Hp. cbn [existsb orb]. rewrite Hsep.
    now apply IH.
Qed.

Lemma path_error_abs_path (comps : list str) :
  forallb simple_name comps = true -> path_error (abs_path comps) = None.
Proof.
  intros H. unfold path_error, abs_path, str_contains. cbn [existsb].
  change (bad_surrogate SEP) with false. change (0 =? SEP) with false.
  cbn [orb].
  rewrite !existsb_str_join; try reflexivity.
  - rewrite forallb_forall in *. intros w Hw. specialize (H w Hw).
    unfold simple_name in H. apply andb_true_iff in H as [H _].
    now apply andb_true_iff in H as [_ H].
  - rewrite forallb_forall in *. intros w Hw. specialize (H w Hw).
    unfold simple_name in H. apply andb_true_iff in H as [H _].
    apply andb_true_iff in H as [H _].
    now apply andb_true_iff in H as [_ H].
Qed.


(** ** Percent-encoding *)

Lemma hexval_HEX (d : Z) : 0 <= d < 16 -> hexval (HEX d) = Some d.
Proof.
  intros Hd.
  pose proof (below_check
    (fun d => match hexval (HEX d) with
              | Some m => m =? d
              | None => false
              end) 16 eq_refl d ltac:(lia)) as H.
  cbv beta in H. destruct (hexval (HEX d)) as [m|]; [|discriminate].
  apply Z.eqb_eq in H. now subst m.
Qed.

Lemma pct_byte_text (b : Z) :
  0 <= b < 256 ->
  asciib (pct_byte b) = true
  /\ str_contains 63 (pct_byte b) = false
  /\ str_contains 35 (pct_byte b) = false.
Proof.
  intros Hb.
  pose proof (below_check
    (fun b => asciib (pct_byte b) && negb (str_contains 63 (pct_byte b))
              && negb (str_contains 35 (pct_byte b)))
    256 eq_refl b ltac:(lia)) as H.
  cbv beta in H. apply andb_true_iff in H as [H H35].
  apply andb_true_iff in H as [Ha H63].
  apply negb_true_iff in H63, H35. auto.
Qed.

Lemma unquote_pct_byte (b : Z) (rest : str) :
  0 <= b < 256 ->
  unquote_to_bytes (pct_byte b ++ rest) = b :: unquote_to_bytes rest.
Proof.
  intros Hb. unfold pct_byte. destruct (unreserved b) eqn:Hu.
  - cbn [app unquote_to_bytes].
    destruct (Z.eqb_spec b 37) as [->|_]; [discriminate Hu|reflexivity].
  - cbn [app unquote_to_bytes]. change (37 =? 37) with true. cbv iota.
    rewrite !hexval_HEX.
    + f_equal. pose proof (Z.div_mod b 16 ltac:(lia)). lia.
    + apply Z.mod_pos_bound. lia.
    + split; [apply Z.div_pos; lia|apply Z.div_lt_upper_bound; lia].
Qed.

Lemma unquote_pct (bs : bytes) :
  Forall (fun b => 0 <= b < 256) bs ->
  unquote_to_bytes (flat_map pct_byte bs) = bs.
Proof.
  induction 1 as [|b r Hb Hr IH]; [reflexivity|].
  cbn [flat_map]. rewrite unquote_pct_byte by exact Hb. now rewrite IH.
Qed.

Lemma pct_text (bs : bytes) :
  Forall (fun b => 0 <= b < 256) bs ->
  asciib (flat_map pct_byte bs) = true
  /\ str_contains 63 (flat_map pct_byte bs) = false
  /\ str_contains 35 (flat_map pct_byte bs) = false.
Proof.
  induction 1 as [|b r Hb Hr (IHa & IH63 & IH35)]; [repeat split|].
  destruct (pct_byte_text b Hb) as (Ha & H63 & H35).
  cbn [flat_map]. unfold asciib. rewrite forallb_app, !str_contains_app.
  fold (asciib (pct_byte b)). fold (asciib (flat_map pct_byte r)).
  now rewrite Ha, IHa, H63, IH63, H35, IH35.
Qed.

Lemma cont_range (y : Z) : 0 <= Z.lor 0x80 (Z.land y 0x3F) < 256.
Proof.
  change 0x3F with (Z.ones 6). rewrite Z.land_ones by lia.
  assert (H : 0 <= y mod 2 ^ 6 < 64) by (apply Z.mod_pos_bound; lia).
  destruct (cont_byte _ H) as [-> _]. lia.
Qed.

Lemma lead_range (m k c j : Z) :
  0 <= k -> 0 <= j -> 0 <= c < 2 ^ (j + k) ->
  0 <= m * 2 ^ k -> m * 2 ^ k + 2 ^ k <= 256 ->
  0 <= Z.lor (m * 2 ^ k) (Z.shiftr c j) < 256.
Proof.
  intros Hk Hj Hc Hm Hm'. rewrite Z.shiftr_div_pow2 by exact Hj.
  assert (Hp : 0 < 2 ^ j) by (apply Z.pow_pos_nonneg; lia).
  assert (H : 0 <= c / 2 ^ j < 2 ^ k).
  { split; [apply Z.div_pos; lia|].
    apply Z.div_lt_upper_bound; [lia|]. rewrite <- Z.pow_add_r by lia. lia. }
  rewrite lor_low by lia. lia.
Qed.

Ltac byte_ranges :=
  repeat apply Forall_cons; try apply Forall_nil; try apply cont_range.

Lemma utf8_encode_cp_bytes (c : Z) (b : bytes) :
  utf8_encode_cp c = Some b -> Forall (fun x => 0 <= x < 256) b.
Proof.
  unfold utf8_encode_cp. intros H.
  destruct (c <? 0) eqn:H0; [discriminate|]. apply Z.ltb_ge in H0.
  destruct (c <? 128) eqn:H1.
  { apply Z.ltb_lt in H1. injection H as <-. byte_ranges. lia. }
  destruct (c <? 2048) eqn:H2.
  { apply Z.ltb_lt in H2. injection H as <-. byte_ranges.
    apply (lead_range 6 5 c 6); change (2 ^ (6 + 5)) with 2048;
      change (2 ^ 5) with 32; lia. }
  destruct (c <? 65536) eqn:H3.
  { apply Z.ltb_lt in H3.
    destruct ((55296 <=? c) && (c <=? 57343)); [discriminate|].
    injection H as <-. byte_ranges.
    apply (lead_range 14 4 c 12); change (2 ^ (12 + 4)) with 65536;
      change (2 ^ 4) with 16; lia. }
  destruct (c <? 1114112) eqn:H4; [|discriminate].
  apply Z.ltb_lt in H4. injection H as <-. byte_ranges.
  apply (lead_range 30 3 c 18); change (2 ^ (18 + 3)) with 2097152;
    change (2 ^ 3) with 8; lia.
Qed.

Lemma str_encode_bytes (s : str) :
  forall bs, str_encode s = Some bs -> Forall (fun x => 0 <= x < 256) bs.
Proof.
  induction s as [|c r IH]; intros bs H.
  - injection H as <-. constructor.
  - cbn [str_encode] in H.
    destruct (utf8_encode_cp c) as [b|] eqn:Hc; [|discriminate].
    destruct (str_encode r) as [bs'|]; [|discriminate].
    injection H as <-. apply Forall_app. split.
    + now apply (utf8_encode_cp_bytes c).
    + now apply IH.
Qed.

(** The target the page asks for is an ASCII text without [?] and [#] that
    encodes the slash and the name. *)
Lemma page_target_encodes (name t : str) :
  encodeURIComponent name = Some t ->
  asciib (SEP :: t) = true
  /\ str_contains 63 (SEP :: t) = false
  /\ str_contains 35 (SEP :: t) = false
  /\ str_encode (SEP :: name) = Some (unquote_to_bytes (SEP :: t)).
Proof.
  unfold encodeURIComponent. intros H.
  destruct (str_encode name) as [bs|] eqn:Hbs; [|discriminate].
  injection H as <-.
  pose proof (str_encode_bytes name bs Hbs) as Hrange.
  destruct (pct_text bs Hrange) as (Ha & H63 & H35).
  split; [exact Ha|]. split; [exact H63|]. split; [exact H35|].
  cbn [str_encode unquote_to_bytes]. rewrite Hbs.
  change (SEP =? 37) with false. cbv iota.
  now rewrite unquote_pct.
Qed.

(** ** A file that is asked for by a target that encodes its path *)

Section ServeFile.

Variable L : library.
Variable E : env.
Variable hs : list (str * str).
Variable pre : list str.
Variable name : str.
Variable mtime : Z.
Variable content : bytes.
Variable target : str.

Let comps := pre ++ [name].
Let self := {| self_path := target; self_headers := hs |}.

Hypothesis Hwf : wf_env E = true.
Hypothesis Hsimple : forallb simple_name comps = true.
Hypothesis Haudio : is_audio name = true.
Hypothesis Hascii : asciib target = true.
Hypothesis H63 : str_contains 63 target = false.
Hypothesis H35 : str_contains 35 target = false.
Hypothesis Henc : str_encode (abs_path comps) = Some (unquote_to_bytes target).
Hypothesis Hfile : find (fs E) (cwd E ++ comps) = Some (File true mtime content).
Hypothesis Hims : headers_get (lit "If-Modified-Since") hs = None.




(** With either error handler the target decodes to the path. *)
Lemma target_decodes (e : errors) :
  unquote_errors e target = Some (abs_path comps).
Proof.
  unfold unquote_errors. destruct (str_contains 37 target) eqn:Hp; cbn [negb].
  - rewrite unquote_runs_ascii by now apply asciib_ok.
    cbn [rev app]. now apply bytes_decode_encode.
  - f_equal. pose proof Henc as H.
    rewrite unquote_to_bytes_id in H by exact Hp.
    pose proof (bytes_decode_encode Replace _ _ H) as Hd.
    rewrite bytes_decode_ascii in Hd by now apply asciib_ok.
    now injection Hd.
Qed.

Lemma target_request_path : request_path target = abs_path comps.
Proof.
  unfold request_path. rewrite before_first_id by exact H63.
  unfold unquote. now rewrite target_decodes.
Qed.








End ServeFile.




Lemma lookup_In (es : list (str * node)) (name : str) (n : node) :
  distinct (map fst es) = true -> In (name, n) es -> lookup name es = Some n.
Proof.
  induction es as [|[k x] rest IH]; simpl; intros Hd Hin; [contradiction|].
  apply andb_true_iff in Hd as [Hk Hrest]. destruct Hin as [Heq|Hin].
  - injection Heq as -> ->. now rewrite str_eqb_refl.
  - destruct (str_eqb k name) eqn:Hkn; [|now apply IH].
    apply str_eqb_eq in Hkn. subst k. apply negb_true_iff in Hk.
    assert (existsb (str_eqb name) (map fst rest) = true) as Hex; [|congruence].
    apply existsb_exists. exists name. split; [|apply str_eqb_refl].
    apply in_map_iff. now exists (name, n).
Qed.



(** ** The static file responder *)






Example traversal_example (L : library) :
  resolve E_srv (lit "./../a.mp3") = Some (File true 1600000000 (lit "outside"))
  /\ status_of (sent (do_GET L E_srv (GET "/../a.mp3"))) = Some 200
  /\ body_of (sent (do_GET L E_srv (GET "/../a.mp3"))) = [73; 68; 51; 4].
Proof. repeat split; vm_compute; reflexivity. Qed.



(** ** Failures *)

Lemma serve_forever_app (L : library) (cwd : list str)
                        (a b : list (node * request)) :
  serve_forever L cwd (a ++ b)
  = serve_forever L cwd a ++ serve_forever L cwd b.
Proof.
  induction a as [|[fs_now self] a IH]; simpl; [reflexivity|].
  now rewrite IH, app_assoc.
Qed.

Lemma listing_failure_raises (L : library) (E : env) (self : request) (e : exn) :
  os_listdir E (lit ".") = Raise e ->
  request_path (self_path self) = lit "/playlist.json" ->
  do_GET L E self fresh = (Raise e, fresh).
Proof.
  intros Hlist Hpath. rewrite do_GET_dispatch, Hpath. simpl str_eqb.
  unfold playlist_endpoint, bind, call. now rewrite Hlist.
Qed.

(** C6, as the code has it.  When the served root cannot be listed (it may
    not be read, or it is gone), the request for [/playlist.json] gets no
    response: [os.listdir] raises [OSError] before anything is sent, the
    request loop prints the traceback and closes the connection.  Only
    that request is affected: the requests before and after it are served
    as they would be without it, and the loop goes on. *)
Theorem unreadable_root_fails_one_request (L : library) (cwd : list str)
    (root_now : node) (self : request)
    (before after : list (node * request)) :
  os_listdir {| fs := root_now; cwd := cwd |} (lit ".") = Raise OSError ->
  request_path (self_path self) = lit "/playlist.json" ->
  handle_request_noblock L {| fs := root_now; cwd := cwd |} self
  = [Traceback OSError; Connection []]
  /\ serve_forever L cwd (before ++ (root_now, self) :: after)
     = serve_forever L cwd before
       ++ [Traceback OSError; Connection []]
       ++ serve_forever L cwd after.
Proof.
  intros Hlist Hpath.
  assert (Hone : handle_request_noblock L {| fs := root_now; cwd := cwd |} self
                 = [Traceback OSError; Connection []]).
  { unfold handle_request_noblock.
    now rewrite (listing_failure_raises L _ self OSError Hlist Hpath). }
  split; [exact Hone|].
  rewrite serve_forever_app. f_equal.
  cbn [serve_forever]. now rewrite Hone.
Qed.

(** C6, as the specification has it, fails: there is no server error
    response, the connection of [E_locked] is closed with nothing sent,
    whatever the [library] record is. *)
Lemma unreadable_root_no_error_response :
  ~ (exists L : library,
      forall (E : env) (self : request) (es : list (str * node)),
       find (fs E) (cwd E) = Some (Dir false es) ->
       request_path (self_path self) = lit "/playlist.json" ->
       exists items code,
         In (Connection items) (handle_request_noblock L E self)
         /\ status_of items = Some code /\ 500 <= code <= 599).
Proof.
  intros [L H].
  destruct (H E_locked (GET "/playlist.json") music
              eq_refl eq_refl) as (items & code & Hin & Hstatus & _).
  vm_compute in Hin. destruct Hin as [Hin|[Hin|[]]]; [discriminate|].
  injection Hin as <-. discriminate.
Qed.


(** * Further properties

    What the code shows beyond the statements above: the filter and the
    routing in detail, what the script serves and from where, and the
    player script of the page. *)

(** ** The filter and the two responders of the script *)

Lemma lower_cp_cases (c x : Z) :
  lower_cp c = x -> c = x \/ (65 <= c <= 90 /\ x = c + 32).
Proof.
  unfold lower_cp. destruct ((65 <=? c) && (c <=? 90)) eqn:H; intros <-.
  - right. apply andb_true_iff in H as [H1 H2]. lia.
  - now left.
Qed.

(** X1.  A name passes the playlist filter exactly when its last four
    characters are a dot, [m] or [M], [p] or [P], and the digit [3]: the
    test ignores the case of the two letters and looks at nothing that
    comes before the suffix. *)
Theorem audio_names_by_suffix (f : str) :
  is_audio f = true <->
  exists stem m p,
    f = stem ++ [46; m; p; 51] /\ (m = 109 \/ m = 77) /\ (p = 112 \/ p = 80).
Proof.
  unfold is_audio, AUDIO_EXT. split.
  - intros H. apply endswith_suffix in H as [pre H].
    change (lit ".mp3") with [46; 109; 112; 51] in H.
    unfold str_lower in H. apply map_eq_app in H as (stem & ext & -> & _ & H).
    destruct ext as [|a [|m [|p [|d [|]]]]]; try discriminate.
    injection H as Ha Hm Hp Hd.
    apply lower_cp_cases in Ha, Hm, Hp, Hd.
    exists stem, m, p. split; [|split; lia].
    assert (a = 46) as -> by lia. assert (d = 51) as -> by lia. reflexivity.
  - intros (stem & m & p & -> & Hm & Hp).
    unfold str_lower. rewrite map_app.
    replace (map lower_cp [46; m; p; 51]) with (lit ".mp3").
    + apply suffix_endswith.
    + destruct Hm as [-> | ->], Hp as [-> | ->]; reflexivity.
Qed.

Lemma playlist_app (a b : list str) : playlist (a ++ b) = playlist a ++ playlist b.
Proof. apply filter_app. Qed.

(** X2.  The playlist is not sorted: two audio entries keep the order in
    which [os.listdir] returned them, and the names before, between and
    after them are filtered on their own. *)
Theorem playlist_keeps_listing_order (before between after : list str) (f g : str) :
  is_audio f = true -> is_audio g = true ->
  playlist (before ++ f :: between ++ g :: after)
  = playlist before ++ f :: playlist between ++ g :: playlist after.
Proof.
  intros Hf Hg. rewrite playlist_app. f_equal.
  change (f :: between ++ g :: after) with ([f] ++ between ++ [g] ++ after).
  rewrite !playlist_app. unfold playlist at 1 3. simpl. now rewrite Hf, Hg.
Qed.

(** X3.  [send_json] cannot fail on a list of strings: [json.dumps]
    escapes everything outside printable ASCII, so the text encodes to
    itself and the body is ASCII, whatever characters the names hold. *)
Theorem json_body_is_ascii (obj : list str) :
  send_json obj fresh = done (json_response (json_dumps obj))
  /\ str_encode (json_dumps obj) = Some (json_dumps obj)
  /\ is_ascii (json_dumps obj).
Proof.
  split; [apply send_json_run|]. split; [apply json_dumps_encode|].
  apply json_dumps_ascii.
Qed.

Lemma playlist_endpoint_sent (E : env) :
  sent (playlist_endpoint E) = []
  \/ exists names, sent (playlist_endpoint E)
                   = json_response (json_dumps (playlist names)).
Proof.
  unfold sent, playlist_endpoint, bind, call.
  destruct (os_listdir E (lit ".")) as [names|e]; [|now left].
  right. exists names. now rewrite send_json_run.
Qed.

(** X4.  The two responders of the script never send a [Content-Length]
    header: the body of the playlist and of the page ends where the
    connection is closed. *)
Theorem own_responses_carry_no_length (L : library) (E : env) (self : request) :
  str_eqb (request_path (self_path self)) (lit "/playlist.json")
  || str_eqb (request_path (self_path self)) (lit "/") = true ->
  header_of (lit "Content-Length") (sent (do_GET L E self)) = None.
Proof.
  intros H. rewrite do_GET_dispatch.
  destruct (str_eqb (request_path (self_path self)) (lit "/playlist.json")).
  - destruct (playlist_endpoint_sent E) as [-> | [names ->]]; reflexivity.
  - cbn [orb] in H. rewrite H.
    destruct PLAYER_HTML_encodes as [page Hpage].
    unfold sent, page_responder. rewrite (send_html_run _ page Hpage).
    reflexivity.
Qed.

(** An ASCII text that decodes to an ASCII path is unquoted to it. *)
Lemma unquote_ascii_path (a p : str) :
  asciib a = true -> is_ascii p -> unquote_to_bytes a = p -> unquote a = p.
Proof.
  intros Ha Hp Hb. unfold unquote, unquote_errors.
  destruct (str_contains 37 a) eqn:H37; cbn [negb].
  - rewrite unquote_runs_ascii by now apply asciib_ok.
    cbn [rev app]. rewrite Hb. now rewrite bytes_decode_ascii.
  - now rewrite unquote_to_bytes_id in Hb.
Qed.

Lemma request_path_query (a q : str) :
  str_contains 63 a = false ->
  request_path a = unquote a /\ request_path (a ++ 63 :: q) = unquote a.
Proof.
  intros H. unfold request_path. split.
  - now rewrite before_first_id.
  - rewrite before_first_app by exact H. cbn. now rewrite app_nil_r.
Qed.

(** X5.  The two fixed paths are compared after decoding: every ASCII
    target without [?] that percent-decodes to [/playlist.json] (to [/])
    reaches the playlist endpoint (the page responder), with or without a
    query. *)
Theorem encoded_spellings_are_routed (L : library) (E : env)
    (hs : list (str * str)) (a q : str) :
  asciib a = true -> str_contains 63 a = false ->
  (unquote_to_bytes a = lit "/playlist.json" ->
   do_GET L E {| self_path := a; self_headers := hs |} = playlist_endpoint E
   /\ do_GET L E {| self_path := a ++ 63 :: q; self_headers := hs |}
      = playlist_endpoint E)
  /\ (unquote_to_bytes a = lit "/" ->
      do_GET L E {| self_path := a; self_headers := hs |} = page_responder
      /\ do_GET L E {| self_path := a ++ 63 :: q; self_headers := hs |}
         = page_responder).
Proof.
  intros Ha H63. destruct (request_path_query a q H63) as [H1 H2].
  split; intros Hb.
  - assert (Hp : unquote a = lit "/playlist.json").
    { apply unquote_ascii_path; [exact Ha| |exact Hb].
      apply asciib_ok. reflexivity. }
    split; rewrite do_GET_dispatch; cbn [self_path]; rewrite ?H1, ?H2, Hp;
      reflexivity.
  - assert (Hp : unquote a = lit "/").
    { apply unquote_ascii_path; [exact Ha| |exact Hb].
      apply asciib_ok. reflexivity. }
    split; rewrite do_GET_dispatch; cbn [self_path]; rewrite ?H1, ?H2, Hp;
      reflexivity.
Qed.

(** X6.  Decoding undoes the encoding of the page: for the target the
    page builds with [encodeURIComponent], the path [do_GET] routes on is
    the slash and the name, with or without a query, whatever characters
    the name holds. *)
Theorem page_target_round_trip (name t q : str) :
  encodeURIComponent name = Some t ->
  request_path (SEP :: t) = SEP :: name
  /\ request_path (SEP :: t ++ 63 :: q) = SEP :: name.
Proof.
  intros H. destruct (page_target_encodes name t H) as (Ha & H63 & _ & Henc).
  assert (Hp : request_path (SEP :: t) = SEP :: name).
  { exact (target_request_path [] name (SEP :: t) Ha H63 Henc). }
  split; [exact Hp|].
  destruct (request_path_query (SEP :: t) q H63) as [H1 H2].
  change (SEP :: t ++ 63 :: q) with ((SEP :: t) ++ 63 :: q).
  now rewrite H2, <- H1.
Qed.


(** X8.  A fragment is not cut off before the path is compared: a target
    with a [#] is neither of the two fixed paths and goes to the static
    file handler, which cuts the fragment itself and translates the
    target as if it had none. *)
Theorem fragment_reaches_static_handler (L : library) (E : env)
    (hs : list (str * str)) (directory a f : str) :
  str_contains 37 (a ++ 35 :: f) = false ->
  str_contains 63 a = false ->
  str_contains 35 a = false ->
  do_GET L E {| self_path := a ++ 35 :: f; self_headers := hs |}
  = static_file_responder L E
      {| self_path := a ++ 35 :: f; self_headers := hs |}
  /\ translate_path directory (a ++ 35 :: f) = translate_path directory a.
Proof.
  intros H37 H63 H35. split.
  - rewrite do_GET_dispatch. cbn [self_path].
    assert (Hrp : request_path (a ++ 35 :: f) = a ++ 35 :: before_first 63 f).
    { unfold request_path. rewrite before_first_app by exact H63.
      cbn [before_first]. change (35 =? 63) with false. cbv iota.
      apply unquote_literal.
      rewrite str_contains_app in *. apply orb_false_iff in H37 as [Ha Hf].
      rewrite Ha. cbn [orb]. unfold str_contains in *. cbn [existsb] in *.
      apply orb_false_iff in Hf as [-> Hf]. cbn [orb].
      clear - Hf. induction f as [|x r IH]; [reflexivity|].
      cbn [existsb] in Hf. apply orb_false_iff in Hf as [Hx Hr].
      cbn [before_first]. destruct (x =? 63); [reflexivity|].
      cbn [existsb]. now rewrite Hx, IH. }
    rewrite Hrp.
    assert (Hin : str_contains 35 (a ++ 35 :: before_first 63 f) = true).
    { rewrite str_contains_app. unfold str_contains at 2. cbn [existsb].
      rewrite Z.eqb_refl. now rewrite orb_true_r. }
    destruct (str_eqb (a ++ 35 :: before_first 63 f) (lit "/playlist.json"))
      eqn:H1.
    { apply str_eqb_eq in H1. rewrite H1 in Hin. discriminate. }
    destruct (str_eqb (a ++ 35 :: before_first 63 f) (lit "/")) eqn:H2.
    { apply str_eqb_eq in H2. rewrite H2 in Hin. discriminate. }
    reflexivity.
  - unfold translate_path. rewrite !split1_item0.
    assert (Hcut : before_first 35 (before_first 63 (a ++ 35 :: f))
                   = before_first 35 (before_first 63 a)).
    { rewrite !(before_first_id 63 a) by exact H63.
      rewrite (before_first_app 63) by exact H63.
      rewrite (before_first_app 35) by exact H35.
      cbn [before_first]. change (35 =? 63) with false. cbv iota.
      cbn [before_first]. rewrite Z.eqb_refl.
      now rewrite app_nil_r, before_first_id. }
    now rewrite Hcut.
Qed.

(** ** What the static file handler is asked for *)

(** The text [encodeURIComponent] writes for a byte ends with a character
    that is neither white space nor a slash. *)
Lemma pct_byte_last (b : Z) :
  0 <= b < 256 ->
  exists s x, pct_byte b = s ++ [x] /\ is_space x = false /\ x <> SEP.
Proof.
  intros Hb.
  assert (H : match rev (pct_byte b) with
              | x :: _ => negb (is_space x) && negb (x =? SEP)
              | [] => false
              end = true).
  { apply (below_check
             (fun b => match rev (pct_byte b) with
                       | x :: _ => negb (is_space x) && negb (x =? SEP)
                       | [] => false
                       end) 256); [vm_compute; reflexivity|exact Hb]. }
  destruct (rev (pct_byte b)) as [|x s] eqn:Hrev; [discriminate|].
  exists (rev s), x. apply andb_true_iff in H as [H1 H2].
  split; [|split].
  - rewrite <- (rev_involutive (pct_byte b)), Hrev. reflexivity.
  - now apply negb_true_iff.
  - apply negb_true_iff in H2. now apply Z.eqb_neq.
Qed.

Lemma pct_text_last (bs : bytes) :
  bs <> [] -> Forall (fun b => 0 <= b < 256) bs ->
  exists s x, flat_map pct_byte bs = s ++ [x] /\ is_space x = false /\ x <> SEP.
Proof.
  intros Hne Hrange.
  destruct (exists_last Hne) as (bs' & b & ->).
  apply Forall_app in Hrange as [_ Hb]. inversion Hb as [|? ? Hb' _]; subst.
  destruct (pct_byte_last b Hb') as (s & x & Hs & Hx).
  exists (flat_map pct_byte bs' ++ s), x. split; [|exact Hx].
  rewrite flat_map_app. cbn [flat_map]. rewrite app_nil_r, Hs.
  now rewrite app_assoc.
Qed.

(** What the handler makes of the target the page would build for a name,
    whatever the name ends with. *)
Lemma name_target (name t : str) :
  simple_name name = true ->
  encodeURIComponent name = Some t ->
  request_path (SEP :: t) = SEP :: name
  /\ kept_words (SEP :: t) = [name]
  /\ trailing_slash (SEP :: t) = false.
Proof.
  intros Hsimple Ht.
  destruct (page_target_encodes name t Ht) as (Ha & H63 & H35 & Henc).
  pose proof (simple_name_plain name Hsimple) as Hplain.
  assert (Hwords : target_path (SEP :: t) = SEP :: t
                   /\ kept_words (SEP :: t) = [name]).
  { apply kept_words_decoded; [|discriminate|exact H63|exact H35|].
    - simpl. now rewrite Hplain.
    - exact (target_decodes [] name (SEP :: t) Ha Henc Surrogatepass). }
  split; [exact (target_request_path [] name (SEP :: t) Ha H63 Henc)|].
  split; [exact (proj2 Hwords)|].
  unfold trailing_slash. rewrite (proj1 Hwords).
  unfold encodeURIComponent in Ht.
  destruct (str_encode name) as [bs|] eqn:Hbs; [|discriminate].
  injection Ht as <-.
  assert (Hne : bs <> []).
  { destruct name as [|c r]; [discriminate|]. cbn [str_encode] in Hbs.
    destruct (utf8_encode_cp c) as [b|] eqn:Hb; [|discriminate].
    destruct (str_encode r); [|discriminate]. injection Hbs as <-.
    pose proof (utf8_encode_cp_length c b Hb).
    destruct b; [simpl in *; lia|discriminate]. }
  destruct (pct_text_last bs Hne (str_encode_bytes name bs Hbs))
    as (s & x & -> & Hspace & Hsep).
  change (SEP :: s ++ [x]) with ((SEP :: s) ++ [x]).
  rewrite rstrip_last by exact Hspace. rewrite endswith_last.
  now apply Z.eqb_neq.
Qed.

(** A path that ends with the name of an audio entry is none of the two
    fixed paths. *)
Lemma audio_path_is_static (L : library) (E : env) (self : request)
    (pre : list str) (name : str) :
  is_audio name = true ->
  request_path (self_path self) = abs_path (pre ++ [name]) ->
  do_GET L E self = static_file_responder L E self.
Proof.
  intros Haudio Hp. rewrite do_GET_dispatch, Hp.
  destruct (is_audio_last name Haudio) as [u ->].
  destruct (abs_path_last pre u 51) as [s ->].
  assert (H1 : str_eqb (s ++ [51]) (lit "/playlist.json") = false).
  { apply str_eqb_neq. change (lit "/playlist.json")
      with (lit "/playlist.jso" ++ [110]).
    intros Heq. apply app_inj_tail in Heq as [_ Heq]. discriminate. }
  assert (H2 : str_eqb (s ++ [51]) (lit "/") = false).
  { apply str_eqb_neq. change (lit "/") with ([] ++ [47]).
    intros Heq. apply app_inj_tail in Heq as [_ Heq]. discriminate. }
  now rewrite H1, H2.
Qed.

Lemma entry_resolves (E : env) (es : list (str * node)) (r : bool)
    (name : str) (n : node) :
  wf_env E = true ->
  find (fs E) (cwd E) = Some (Dir r es) ->
  wf_entries es = true ->
  In (name, n) es ->
  resolve E (abs_path (cwd E ++ [name])) = Some n.
Proof.
  intros Hwf Hroot Hes Hin.
  unfold wf_entries in Hes. apply andb_true_iff in Hes as [Hsimple Hdistinct].
  assert (Hname : simple_name name = true).
  { rewrite forallb_forall in Hsimple. apply Hsimple.
    apply in_map_iff. now exists (name, n). }
  pose proof (simple_name_plain name Hname) as Hplain.
  pose proof (wf_env_plain E Hwf) as Hcwd.
  rewrite <- (join_abs_path (cwd E) name Hcwd Hplain).
  rewrite (resolve_child E _ (cwd E) name).
  - rewrite find_app, Hroot. simpl.
    now rewrite (lookup_In es name n Hdistinct Hin).
  - pose proof (names_child_join (cwd E) false name Hcwd Hplain) as Hn.
    now rewrite app_nil_r in Hn.
  - exact Hplain.
  - rewrite join_abs_path by assumption. apply path_error_abs_path.
    rewrite forallb_app. unfold wf_env in Hwf.
    apply andb_true_iff in Hwf as [-> _]. simpl. now rewrite Hname.
  - now rewrite Hroot.
Qed.


(** X10.  The filter does not look at the kind of an entry: a directory
    whose name ends with [.mp3] is in the playlist, and the request the
    page makes for it is answered by the static file handler with a
    redirect (301) where the path of the target has no slash at its end,
    not with audio. *)
Theorem audio_directory_is_redirected (L : library) (E : env)
    (hs : list (str * str)) (es : list (str * node)) (name : str)
    (r : bool) (sub : list (str * node)) (t : str) :
  wf_env E = true ->
  find (fs E) (cwd E) = Some (Dir true es) ->
  wf_entries es = true ->
  In (name, Dir r sub) es ->
  is_audio name = true ->
  encodeURIComponent name = Some t ->
  str_endswith (urlsplit_path L (SEP :: t)) [SEP] = false ->
  In name (playlist (map fst es))
  /\ do_GET L E {| self_path := SEP :: t; self_headers := hs |} fresh
     = done [Status 301;
             Header (lit "Location") (redirect_url L (SEP :: t));
             Header (lit "Content-Length") (lit "0");
             EndHeaders].
Proof.
  intros Hwf Hroot Hes Hin Haudio Ht Hsplit.
  assert (Hname : simple_name name = true).
  { unfold wf_entries in Hes. apply andb_true_iff in Hes as [Hsimple _].
    rewrite forallb_forall in Hsimple. apply Hsimple.
    apply in_map_iff. now exists (name, Dir r sub). }
  split.
  { apply playlist_In. split; [|exact Haudio].
    apply in_map_iff. now exists (name, Dir r sub). }
  destruct (name_target name t Hname Ht) as (Hp & Hwords & Hslash).
  rewrite (audio_path_is_static L E
             {| self_path := SEP :: t; self_headers := hs |} [] name Haudio Hp).
  unfold static_file_responder, SimpleHTTPRequestHandler_do_GET, send_head.
  cbn [self_path].
  pose proof (translate_path_getcwd E
                {| self_path := SEP :: t; self_headers := hs |} Hwf) as Htr.
  cbn [self_path] in Htr. rewrite Hwords, Hslash, app_nil_r in Htr.
  rewrite Htr. unfold os_path_isdir.
  rewrite (entry_resolves E es true name (Dir r sub) Hwf Hroot Hes Hin).
  cbn [is_dir]. rewrite Hsplit. reflexivity.
Qed.

(** X11.  A request that is handed to the static file handler and whose
    translated path cannot be given to the system (it holds a NUL
    character or a surrogate that cannot be encoded) and has no trailing
    slash gets no response: [open] raises, nothing has been sent, and the
    request loop prints the traceback and closes the connection. *)
Theorem unusable_path_drops_the_connection (L : library) (E : env)
    (self : request) (e : exn) :
  wf_env E = true ->
  str_eqb (request_path (self_path self)) (lit "/playlist.json") = false ->
  str_eqb (request_path (self_path self)) (lit "/") = false ->
  trailing_slash (self_path self) = false ->
  path_error (translate_path (getcwd E) (self_path self)) = Some e ->
  do_GET L E self fresh = (Raise e, fresh)
  /\ handle_request_noblock L E self = [Traceback e; Connection []].
Proof.
  intros Hwf H1 H2 Hslash Herr.
  assert (Hrun : do_GET L E self fresh = (Raise e, fresh)).
  { rewrite do_GET_dispatch, H1, H2.
    unfold static_file_responder, SimpleHTTPRequestHandler_do_GET, send_head.
    set (p := translate_path (getcwd E) (self_path self)) in *.
    assert (Hres : resolve E p = None).
    { unfold resolve. now rewrite Herr. }
    unfold os_path_isdir. rewrite Hres. cbn [is_dir].
    assert (Hend : str_endswith p [SEP] = false).
    { unfold p. rewrite translate_path_getcwd by exact Hwf.
      rewrite Hslash, app_nil_r.
      destruct (cwd E ++ kept_words (self_path self)) as [|w ws] eqn:Hw.
      - exfalso. unfold p in Herr.
        rewrite translate_path_getcwd in Herr by exact Hwf.
        rewrite Hslash, app_nil_r, Hw in Herr. discriminate.
      - apply abs_path_no_slash_end; [|discriminate].
        rewrite <- Hw, forallb_app, (wf_env_plain E Hwf).
        apply kept_words_plain. }
    unfold send_head_file. rewrite Hend. unfold open_rb. rewrite Herr.
    assert (He : e = ValueError \/ e = UnicodeEncodeError).
    { unfold path_error in Herr.
      destruct (existsb bad_surrogate p); [right; congruence|].
      destruct (str_contains 0 p); [left; congruence|discriminate]. }
    destruct He as [-> | ->]; reflexivity. }
  split; [exact Hrun|].
  unfold handle_request_noblock. now rewrite Hrun.
Qed.

(** ** The root the script serves *)

Lemma forallb_rev {A} (f : A -> bool) (l : list A) :
  forallb f l = true -> forallb f (rev l) = true.
Proof.
  rewrite !forallb_forall. intros H x Hx. apply H. now apply in_rev.
Qed.

(** Below an absolute start, [normpath] keeps plain words only. *)
Lemma normpath_comps_absolute (i : nat) (comps : list str) :
  i <> 0%nat ->
  Forall (fun w => str_contains SEP w = false) comps ->
  forall acc, forallb plain_word acc = true ->
              forallb plain_word (normpath_comps i acc comps) = true.
Proof.
  intros Hi. induction 1 as [|c rest Hc Hrest IH]; intros acc Hacc.
  - now apply forallb_rev.
  - cbn [normpath_comps].
    destruct (str_eqb c [] || str_eqb c curdir) eqn:Hskip; [now apply IH|].
    apply orb_false_iff in Hskip as [H0 H1].
    destruct (str_eqb c pardir) eqn:H2; cbn [negb orb].
    + replace (Nat.eqb i 0) with false
        by (symmetry; now apply Nat.eqb_neq).
      cbn [andb orb]. destruct acc as [|top popped]; [now apply IH|].
      cbn [forallb] in Hacc. apply andb_true_iff in Hacc as [Htop Hpopped].
      apply plain_word_facts in Htop as (_ & _ & -> & _).
      now apply IH.
    + apply IH. cbn [forallb]. rewrite Hacc, andb_true_r.
      unfold plain_word. now rewrite H0, H1, H2, Hc.
Qed.

Lemma normpath_absolute (p : str) :
  str_startswith p [SEP] = true ->
  exists comps, forallb plain_word comps = true
                /\ (normpath p = abs_path comps
                    \/ normpath p = SEP :: abs_path comps).
Proof.
  intros Hp. destruct p as [|c r]; [discriminate|].
  unfold normpath. rewrite Hp.
  destruct (str_startswith (c :: r) [SEP; SEP]
            && negb (str_startswith (c :: r) [SEP; SEP; SEP])).
  - exists (normpath_comps 2 [] (str_split SEP (c :: r))). split.
    + apply normpath_comps_absolute;
        [discriminate|apply split_sep_free|reflexivity].
    + right. reflexivity.
  - exists (normpath_comps 1 [] (str_split SEP (c :: r))). split.
    + apply normpath_comps_absolute;
        [discriminate|apply split_sep_free|reflexivity].
    + left. reflexivity.
Qed.

Lemma path_join_absolute (a b : str) :
  str_startswith a [SEP] = true -> str_startswith (path_join a b) [SEP] = true.
Proof.
  intros Ha. unfold path_join.
  destruct (str_startswith b [SEP]) eqn:Hb; [exact Hb|].
  destruct a as [|x a']; [discriminate|].
  destruct (str_eqb (x :: a') [] || str_endswith (x :: a') [SEP]); exact Ha.
Qed.

(** X12.  [ROOT] is always an absolute, normalised path: a slash (two
    when the argument starts with exactly two) followed by plain words
    joined by slashes; it has no [.] or [..] and no empty component. *)
Theorem served_root_is_absolute_and_tidy (E : env) (root : str) :
  exists comps,
    forallb plain_word comps = true
    /\ (abspath E root = abs_path comps
        \/ abspath E root = SEP :: abs_path comps).
Proof.
  unfold abspath. apply normpath_absolute.
  destruct (str_startswith root [SEP]) eqn:Hr; [exact Hr|].
  apply path_join_absolute. reflexivity.
Qed.









(** ** The player script *)

Lemma load_keeps (i : number) (d : player) :
  idx (snd (load i d))
  = number_rem (number_add i (Num (Z.of_nat (List.length (list_ d)))))
               (Num (Z.of_nat (List.length (list_ d))))
  /\ list_ (snd (load i d)) = list_ d.
Proof.
  unfold load.
  destruct (js_encodeURIComponent _); split; reflexivity.
Qed.

Lemma rem_next (k n : Z) :
  0 <= k < n -> Z.rem (k + 1 + n) n = if k + 1 <? n then k + 1 else 0.
Proof.
  intros H. rewrite Z.rem_mod_nonneg by lia.
  destruct (Z.ltb_spec (k + 1) n).
  - replace (k + 1 + n) with (k + 1 + 1 * n) by lia.
    rewrite Z.mod_add by lia. apply Z.mod_small. lia.
  - replace (k + 1 + n) with (0 + 2 * n) by lia.
    rewrite Z.mod_add by lia. apply Z.mod_small. lia.
Qed.

Lemma rem_prev (k n : Z) :
  0 <= k < n -> Z.rem (k - 1 + n) n = if k =? 0 then n - 1 else k - 1.
Proof.
  intros H. rewrite Z.rem_mod_nonneg by lia.
  destruct (Z.eqb_spec k 0).
  - subst k. replace (0 - 1 + n) with (n - 1) by lia. apply Z.mod_small. lia.
  - replace (k - 1 + n) with (k - 1 + 1 * n) by lia.
    rewrite Z.mod_add by lia. apply Z.mod_small. lia.
Qed.

Lemma valid_index_inv (d : player) :
  valid_index d = true ->
  exists k, idx d = Num k /\ 0 <= k < Z.of_nat (List.length (list_ d)).
Proof.
  unfold valid_index. destruct (idx d) as [k|]; [|discriminate].
  intros H. apply andb_true_iff in H as [H1 H2]. exists k. split; [reflexivity|lia].
Qed.

Lemma next_idx (d : player) (k : Z) :
  idx d = Num k -> 0 <= k < Z.of_nat (List.length (list_ d)) ->
  idx (snd (next d))
  = Num (if k + 1 <? Z.of_nat (List.length (list_ d)) then k + 1 else 0)
  /\ list_ (snd (next d)) = list_ d.
Proof.
  intros Hk Hr. unfold next. destruct (load_keeps (number_add (idx d) (Num 1)) d)
    as [-> ->]. split; [|reflexivity].
  rewrite Hk. cbn [number_add number_rem].
  replace (Z.of_nat (List.length (list_ d)) =? 0) with false
    by (symmetry; apply Z.eqb_neq; lia).
  now rewrite rem_next.
Qed.

Lemma prev_idx (d : player) (k : Z) :
  idx d = Num k -> 0 <= k < Z.of_nat (List.length (list_ d)) ->
  idx (snd (prev d))
  = Num (if k =? 0 then Z.of_nat (List.length (list_ d)) - 1 else k - 1)
  /\ list_ (snd (prev d)) = list_ d.
Proof.
  intros Hk Hr. unfold prev. destruct (load_keeps (number_sub (idx d) (Num 1)) d)
    as [-> ->]. split; [|reflexivity].
  rewrite Hk. cbn [number_sub number_add number_rem].
  replace (Z.of_nat (List.length (list_ d)) =? 0) with false
    by (symmetry; apply Z.eqb_neq; lia).
  now rewrite rem_prev.
Qed.

Lemma handle_valid (d : player) (e : event) :
  valid_index d = true ->
  valid_index (handle d e) = true /\ list_ (handle d e) = list_ d.
Proof.
  intros H. destruct (valid_index_inv d H) as (k & Hk & Hr).
  assert (Hnext : valid_index (snd (next d)) = true
                  /\ list_ (snd (next d)) = list_ d).
  { destruct (next_idx d k Hk Hr) as [Hi Hl]. split; [|exact Hl].
    unfold valid_index. rewrite Hi, Hl.
    destruct (Z.ltb_spec (k + 1) (Z.of_nat (List.length (list_ d))));
      apply andb_true_iff; split; try apply Z.leb_le; try apply Z.ltb_lt; lia. }
  destruct e; cbn [handle]; try exact Hnext.
  destruct (prev_idx d k Hk Hr) as [Hi Hl]. split; [|exact Hl].
  unfold valid_index. rewrite Hi, Hl.
  destruct (Z.eqb_spec k 0);
    apply andb_true_iff; split; try apply Z.leb_le; try apply Z.ltb_lt; lia.
Qed.

Lemma handle_all_valid (events : list event) (d : player) :
  valid_index d = true ->
  valid_index (handle_all events d) = true
  /\ list_ (handle_all events d) = list_ d.
Proof.
  revert d. induction events as [|e rest IH]; intros d H; [now split|].
  destruct (handle_valid d e H) as [Hv Hl].
  destruct (IH (handle d e) Hv) as [Hv' Hl'].
  cbn [handle_all fold_left]. fold (handle_all rest (handle d e)).
  split; [exact Hv'|congruence].
Qed.

(** X14.  Once a playlist that is not empty has arrived, [idx] is 0, and
    whatever buttons are pressed and tracks end afterwards, [idx] stays
    an index of the playlist and the playlist stays as it is. *)
Theorem player_index_stays_valid (files : list (list Z)) (d : player)
    (events : list event) :
  files <> [] ->
  idx (snd (on_playlist files d)) = Num 0
  /\ valid_index (handle_all events (snd (on_playlist files d))) = true
  /\ list_ (handle_all events (snd (on_playlist files d))) = files.
Proof.
  intros Hne. destruct files as [|f rest]; [congruence|].
  set (d1 := {| idx := idx d; list_ := f :: rest;
                effects := effects d ++ [SetupEQ] |}).
  change (on_playlist (f :: rest) d) with (load (Num 0) d1).
  destruct (load_keeps (Num 0) d1) as [Hi Hl].
  assert (Hidx : idx (snd (load (Num 0) d1)) = Num 0).
  { rewrite Hi. cbn [d1 list_ number_add number_rem].
    replace (Z.of_nat (List.length (f :: rest)) =? 0) with false
      by (symmetry; apply Z.eqb_neq; cbn [List.length]; lia).
    f_equal. rewrite Z.rem_mod_nonneg by (cbn [List.length]; lia).
    rewrite Z.add_0_l. apply Z.mod_same. cbn [List.length]. lia. }
  split; [exact Hidx|].
  assert (Hvalid : valid_index (snd (load (Num 0) d1)) = true).
  { unfold valid_index. rewrite Hidx, Hl. cbn [d1 list_ List.length Z.leb].
    apply andb_true_iff. split; [reflexivity|apply Z.ltb_lt; lia]. }
  destruct (handle_all_valid events _ Hvalid) as [Hv Hl'].
  split; [exact Hv|]. now rewrite Hl', Hl.
Qed.

(** X15.  [next] and [prev] undo each other, and they wrap around: [next]
    on the last track goes to the first one, [prev] on the first track to
    the last one. *)
Theorem next_and_prev_wrap_around (d : player) :
  valid_index d = true ->
  idx (snd (prev (snd (next d)))) = idx d
  /\ idx (snd (next (snd (prev d)))) = idx d
  /\ (idx d = Num (Z.of_nat (List.length (list_ d)) - 1) ->
      idx (snd (next d)) = Num 0)
  /\ (idx d = Num 0 ->
      idx (snd (prev d)) = Num (Z.of_nat (List.length (list_ d)) - 1)).
Proof.
  intros H. destruct (valid_index_inv d H) as (k & Hk & Hr).
  destruct (next_idx d k Hk Hr) as [Hn Hnl].
  destruct (prev_idx d k Hk Hr) as [Hp Hpl].
  set (n := Z.of_nat (List.length (list_ d))) in *.
  split; [|split; [|split]].
  - destruct (prev_idx (snd (next d)) _ Hn) as [-> _].
    + rewrite Hnl. fold n. destruct (Z.ltb_spec (k + 1) n); lia.
    + rewrite Hnl, Hk. fold n. f_equal.
      destruct (Z.ltb_spec (k + 1) n).
      * destruct (Z.eqb_spec (k + 1) 0); lia.
      * cbn. lia.
  - destruct (next_idx (snd (prev d)) _ Hp) as [-> _].
    + rewrite Hpl. fold n. destruct (Z.eqb_spec k 0); lia.
    + rewrite Hpl, Hk. fold n. f_equal.
      destruct (Z.eqb_spec k 0).
      * destruct (Z.ltb_spec (n - 1 + 1) n); lia.
      * destruct (Z.ltb_spec (k - 1 + 1) n); lia.
  - intros Hlast. rewrite Hn. f_equal.
    rewrite Hk in Hlast. injection Hlast as ->.
    destruct (Z.ltb_spec (n - 1 + 1) n); lia.
  - intros Hfirst. rewrite Hp. f_equal.
    rewrite Hk in Hfirst. now injection Hfirst as ->.
Qed.

(** *** What the player asks the server for *)

Lemma utf16_decode_cp (c : Z) (rest : list Z) :
  is_code_point c = true -> is_surrogate c = false ->
  utf16_decode (utf16_cp c ++ rest) = option_map (cons c) (utf16_decode rest).
Proof.
  unfold is_code_point, is_surrogate, utf16_cp. intros Hc Hs.
  apply andb_true_iff in Hc as [H0 Hmax]. apply Z.leb_le in H0.
  apply Z.ltb_lt in Hmax.
  destruct (Z.ltb_spec c 0x10000) as [Hlow|Hhigh].
  - cbn [app utf16_decode].
    apply andb_false_iff in Hs.
    replace ((0xDC00 <=? c) && (c <=? 0xDFFF)) with false
      by (symmetry; apply andb_false_iff;
          destruct Hs as [Hs|Hs]; [left; apply Z.leb_gt in Hs; apply Z.leb_gt; lia
                                  |right; exact Hs]).
    replace ((0xD800 <=? c) && (c <=? 0xDBFF)) with false
      by (symmetry; apply andb_false_iff;
          destruct Hs as [Hs|Hs]; [left; exact Hs
                                  |right; apply Z.leb_gt in Hs; apply Z.leb_gt; lia]).
    reflexivity.
  - set (n := c - 0x10000).
    assert (Hq : 0 <= n / 1024 < 1024)
      by (split; [apply Z.div_pos; lia|apply Z.div_lt_upper_bound; lia]).
    assert (Hr : 0 <= n mod 1024 < 1024) by (apply Z.mod_pos_bound; lia).
    cbn [app utf16_decode].
    replace ((0xDC00 <=? 0xD800 + n / 1024) && (0xD800 + n / 1024 <=? 0xDFFF))
      with false
      by (symmetry; apply andb_false_iff; left; apply Z.leb_gt; lia).
    replace ((0xD800 <=? 0xD800 + n / 1024) && (0xD800 + n / 1024 <=? 0xDBFF))
      with true
      by (symmetry; apply andb_true_iff; split; apply Z.leb_le; lia).
    replace ((0xDC00 <=? 0xDC00 + n mod 1024)
             && (0xDC00 + n mod 1024 <=? 0xDFFF)) with true
      by (symmetry; apply andb_true_iff; split; apply Z.leb_le; lia).
    replace (0x10000 + (0xD800 + n / 1024 - 0xD800) * 1024
             + (0xDC00 + n mod 1024 - 0xDC00)) with c; [reflexivity|].
    pose proof (Z.div_mod n 1024). unfold n in *. lia.
Qed.

(** Reading the code units of a name gives the name back, unless the name
    holds a surrogate. *)
Lemma utf16_decode_encode (s : str) :
  forallb is_code_point s = true ->
  existsb bad_surrogate s = false ->
  utf16_decode (utf16 s) = if existsb is_surrogate s then None else Some s.
Proof.
  induction s as [|c r IH]; intros Hcp Hbad; [reflexivity|].
  cbn [forallb] in Hcp. apply andb_true_iff in Hcp as [Hc Hr].
  cbn [existsb] in Hbad. apply orb_false_iff in Hbad as [Hcb Hrb].
  cbn [utf16 flat_map existsb]. fold (utf16 r).
  destruct (is_surrogate c) eqn:Hs; cbn [orb].
  - unfold bad_surrogate in Hcb. unfold is_surrogate in Hs. rewrite Hs in Hcb.
    cbn [andb] in Hcb. apply negb_false_iff in Hcb.
    apply andb_true_iff in Hcb as [H1 H2]. apply Z.leb_le in H1, H2.
    unfold utf16_cp. replace (c <? 0x10000) with true
      by (symmetry; apply Z.ltb_lt; lia).
    cbn [app utf16_decode].
    replace ((0xDC00 <=? c) && (c <=? 0xDFFF)) with true
      by (symmetry; apply andb_true_iff; split; apply Z.leb_le; lia).
    reflexivity.
  - rewrite utf16_decode_cp, IH by assumption.
    now destruct (existsb is_surrogate r).
Qed.



Lemma simple_name_facts (name : str) :
  simple_name name = true ->
  forallb is_code_point name = true /\ existsb bad_surrogate name = false.
Proof.
  unfold simple_name. intros H. apply andb_true_iff in H as [H Hcp].
  apply andb_true_iff in H as [H _]. apply andb_true_iff in H as [_ H].
  split; [exact Hcp|]. now apply negb_true_iff.
Qed.

Lemma element_nat (l : list (list Z)) (k : nat) :
  element l (Num (Z.of_nat k)) = nth_error l k.
Proof.
  unfold element.
  replace (Z.of_nat k <? 0) with false by (symmetry; apply Z.ltb_ge; lia).
  now rewrite Nat2Z.id.
Qed.

(** [load] at an index of the playlist. *)
Lemma load_at (d : player) (k : nat) (s : list Z) :
  nth_error (list_ d) k = Some s ->
  load (Num (Z.of_nat k)) d
  = match js_encodeURIComponent s with
    | None =>
        (Some URIError,
         {| idx := Num (Z.of_nat k); list_ := list_ d;
            effects := effects d ++ [NowText (lit "Now playing: " ++ s)] |})
    | Some url =>
        (None,
         {| idx := Num (Z.of_nat k); list_ := list_ d;
            effects := (effects d ++ [NowText (lit "Now playing: " ++ s)])
                       ++ [Src url; Play] |})
    end.
Proof.
  intros Hs.
  assert (Hk : (k < List.length (list_ d))%nat).
  { apply nth_error_Some. congruence. }
  unfold load. cbn [number_add number_rem].
  replace (Z.of_nat (List.length (list_ d)) =? 0) with false
    by (symmetry; apply Z.eqb_neq; lia).
  replace (Z.rem (Z.of_nat k + Z.of_nat (List.length (list_ d)))
                 (Z.of_nat (List.length (list_ d)))) with (Z.of_nat k).
  - rewrite element_nat, Hs. reflexivity.
  - rewrite Z.rem_mod_nonneg by lia.
    replace (Z.of_nat k + Z.of_nat (List.length (list_ d)))
      with (Z.of_nat k + 1 * Z.of_nat (List.length (list_ d))) by lia.
    rewrite Z.mod_add by lia. symmetry. apply Z.mod_small. lia.
Qed.




Lemma listed_name_simple (es : list (str * node)) (k : nat) (name : str) :
  wf_entries es = true ->
  nth_error (playlist (map fst es)) k = Some name ->
  simple_name name = true /\ In name (playlist (map fst es)).
Proof.
  intros Hes Hk. apply nth_error_In in Hk. split; [|exact Hk].
  apply playlist_In in Hk as [Hk _].
  unfold wf_entries in Hes. apply andb_true_iff in Hes as [Hsimple _].
  rewrite forallb_forall in Hsimple. now apply Hsimple.
Qed.


(** X17.  An entry whose name holds a surrogate (the name [os.listdir]
    gives to a file name with bytes that are no UTF-8) is in the playlist
    the page reads, but it cannot be played: [load] shows the name and
    then fails with [URIError] before [a.src] is set. *)
Theorem undecodable_name_is_not_played (es : list (str * node)) (k : nat)
    (name : str) (d : player) :
  wf_entries es = true ->
  nth_error (playlist (map fst es)) k = Some name ->
  existsb is_surrogate name = true ->
  list_ d = map utf16 (playlist (map fst es)) ->
  json_parse (json_dumps (playlist (map fst es))) = Some (list_ d)
  /\ load (Num (Z.of_nat k)) d
     = (Some URIError,
        {| idx := Num (Z.of_nat k); list_ := list_ d;
           effects := effects d
                      ++ [NowText (lit "Now playing: " ++ utf16 name)] |}).
Proof.
  intros Hes Hk Hsur Hd.
  destruct (listed_name_simple es k name Hes Hk) as [Hsimple _].
  destruct (simple_name_facts name Hsimple) as [Hcp Hbad].
  split.
  - rewrite Hd. apply json_parse_dumps, simple_names_code_points.
    unfold wf_entries in Hes. now apply andb_true_iff in Hes as [Hes _].
  - rewrite (load_at d k (utf16 name)).
    + unfold js_encodeURIComponent.
      now rewrite utf16_decode_encode, Hsur by assumption.
    + rewrite Hd. now apply map_nth_error.
Qed.

(** X18.  With an empty playlist [next] and [prev] do not stop: [idx]
    becomes [NaN], the page shows [Now playing: undefined] and asks the
    server for [undefined], a request that goes to the static file
    handler. *)
Theorem empty_playlist_asks_for_undefined (L : library) (E : env) (d : player) :
  list_ d = [] ->
  next d
  = (None,
     {| idx := NaN; list_ := [];
        effects := (effects d ++ [NowText (lit "Now playing: undefined")])
                   ++ [Src (lit "undefined"); Play] |})
  /\ prev d = next d
  /\ do_GET L E (GET "/undefined")
     = static_file_responder L E (GET "/undefined").
Proof.
  intros Hd. assert (Hload : forall i, load i d = load NaN d).
  { intros i. unfold load. rewrite Hd. cbn [List.length Z.of_nat].
    destruct i; reflexivity. }
  split; [|split].
  - unfold next. rewrite Hload. unfold load. rewrite Hd. reflexivity.
  - unfold prev, next. now rewrite !Hload.
  - rewrite do_GET_dispatch. reflexivity.
Qed.

(** * Worked examples

    The theorems above that assume something are run here on the example
    environments. *)







(** Three requests, the second one while the root cannot be listed. *)
Lemma unreadable_root_witness :
  os_listdir E_locked (lit ".") = Raise OSError
  /\ serve_forever plain_library []
       ([(Dir true music, GET "/playlist.json")]
        ++ (Dir false music, GET "/playlist.json")
        :: [(Dir true music, GET "/playlist.json")])
     = serve_forever plain_library [] [(Dir true music, GET "/playlist.json")]
       ++ [Traceback OSError; Connection []]
       ++ serve_forever plain_library [] [(Dir true music, GET "/playlist.json")].
Proof.
  split; [reflexivity|].
  destruct (unreadable_root_fails_one_request plain_library []
              (Dir false music) (GET "/playlist.json")
              [(Dir true music, GET "/playlist.json")]
              [(Dir true music, GET "/playlist.json")] eq_refl eq_refl)
    as [_ Hloop].
  exact Hloop.
Defined.


(** The two targets of the playlist with a question mark, encoded and
    literal. *)
Lemma query_cut_witness :
  request_path (lit "/playlist.json%3Fx=1") = lit "/playlist.json?x=1"
  /\ request_path (lit "/playlist.json?x=1") = lit "/playlist.json"
  /\ do_GET plain_library E_music (GET "/playlist.json%3Fx=1")
     = static_file_responder plain_library E_music (GET "/playlist.json%3Fx=1")
  /\ do_GET plain_library E_music (GET "/playlist.json?x=1")
     = playlist_endpoint E_music.
Proof.
  destruct (query_cut_before_decoding plain_library E_music []
              (lit "/playlist.json") (lit "x=1")
              eq_refl eq_refl eq_refl eq_refl eq_refl eq_refl)
    as (H1 & H2 & H3).
  destruct (H3 eq_refl) as [H4 H5].
  split; [exact H1|]. split; [exact H2|]. split; [exact H4|exact H5].
Defined.

(** The further properties on the example environments. *)

Lemma playlist_order_witness :
  playlist ([lit "c.txt"] ++ lit "a.mp3" :: [lit "notes"] ++ lit "b.MP3" :: [])
  = [lit "a.mp3"; lit "b.MP3"].
Proof.
  exact (playlist_keeps_listing_order [lit "c.txt"] [lit "notes"] []
           (lit "a.mp3") (lit "b.MP3") eq_refl eq_refl).
Defined.

Lemma no_length_witness :
  request_path (self_path (GET "/?shuffle=1")) = lit "/"
  /\ header_of (lit "Content-Length")
       (sent (do_GET plain_library E_music (GET "/?shuffle=1"))) = None.
Proof.
  split; [reflexivity|].
  exact (own_responses_carry_no_length plain_library E_music
           (GET "/?shuffle=1") eq_refl).
Defined.

(** [%70] is the letter p. *)
Lemma encoded_spelling_witness :
  unquote_to_bytes (lit "/%70laylist.json") = lit "/playlist.json"
  /\ do_GET plain_library E_music (GET "/%70laylist.json")
     = playlist_endpoint E_music
  /\ do_GET plain_library E_music (GET "/%70laylist.json?x=1")
     = playlist_endpoint E_music.
Proof.
  split; [reflexivity|].
  destruct (encoded_spellings_are_routed plain_library E_music []
              (lit "/%70laylist.json") (lit "x=1") eq_refl eq_refl)
    as [H _].
  exact (H eq_refl).
Defined.

Lemma page_target_witness :
  encodeURIComponent (lit "my #1 song?.mp3")
  = Some (lit "my%20%231%20song%3F.mp3")
  /\ request_path (lit "/my%20%231%20song%3F.mp3") = lit "/my #1 song?.mp3"
  /\ request_path (lit "/my%20%231%20song%3F.mp3?t=5") = lit "/my #1 song?.mp3".
Proof.
  split; [reflexivity|].
  exact (page_target_round_trip (lit "my #1 song?.mp3")
           (lit "my%20%231%20song%3F.mp3") (lit "t=5") eq_refl).
Defined.

(** A request for the playlist with a fragment: the static file handler
    looks for a file [playlist.json]. *)
Lemma fragment_witness :
  do_GET plain_library E_music (GET "/playlist.json#top")
  = static_file_responder plain_library E_music (GET "/playlist.json#top")
  /\ translate_path (lit "/srv") (lit "/playlist.json#top")
     = lit "/srv/playlist.json".
Proof.
  destruct (fragment_reaches_static_handler plain_library E_music []
              (lit "/srv") (lit "/playlist.json") (lit "top")
              eq_refl eq_refl eq_refl) as [H1 H2].
  split; [exact H1|exact (eq_trans H2 eq_refl)].
Defined.



(** The directory [live.mp3] of [E_album]. *)
Lemma audio_directory_witness :
  In (lit "live.mp3") (playlist (map fst [(lit "live.mp3",
        Dir true [(lit "01.mp3", File true 1700000010 [73; 68; 51])]);
        (lit "a.mp3", File true 1700000000 [73; 68; 51; 4])]))
  /\ do_GET plain_library E_album (GET "/live.mp3") fresh
     = done [Status 301; Header (lit "Location") (lit "/live.mp3/");
             Header (lit "Content-Length") (lit "0"); EndHeaders].
Proof.
  assert (Hin : In (lit "live.mp3",
                    Dir true [(lit "01.mp3", File true 1700000010 [73; 68; 51])])
                   [(lit "live.mp3",
                     Dir true [(lit "01.mp3", File true 1700000010 [73; 68; 51])]);
                    (lit "a.mp3", File true 1700000000 [73; 68; 51; 4])])
    by (simpl; auto).
  exact (audio_directory_is_redirected plain_library E_album [] _
           (lit "live.mp3") true _ (lit "live.mp3")
           eq_refl eq_refl eq_refl Hin eq_refl eq_refl eq_refl).
Defined.

(** [%00] decodes to the NUL character. *)
Lemma unusable_path_witness :
  path_error (translate_path (getcwd E_music) (lit "/a%00.mp3"))
  = Some ValueError
  /\ handle_request_noblock plain_library E_music (GET "/a%00.mp3")
     = [Traceback ValueError; Connection []].
Proof.
  split; [reflexivity|].
  destruct (unusable_path_drops_the_connection plain_library E_music
              (GET "/a%00.mp3") ValueError
              eq_refl eq_refl eq_refl eq_refl eq_refl) as [_ H].
  exact H.
Defined.


(** Two tracks, and the buttons pressed five times. *)
Lemma player_index_witness :
  valid_index
    (handle_all [PressNext; PressNext; PressPrev; Ended; PressPrev]
       (snd (on_playlist [lit "a.mp3"; lit "b.MP3"] player0))) = true
  /\ list_ (handle_all [PressNext; PressNext; PressPrev; Ended; PressPrev]
              (snd (on_playlist [lit "a.mp3"; lit "b.MP3"] player0)))
     = [lit "a.mp3"; lit "b.MP3"].
Proof.
  assert (Hne : [lit "a.mp3"; lit "b.MP3"] <> []) by discriminate.
  destruct (player_index_stays_valid [lit "a.mp3"; lit "b.MP3"] player0
              [PressNext; PressNext; PressPrev; Ended; PressPrev] Hne)
    as (_ & Hvalid & Hlist).
  split; [exact Hvalid|exact Hlist].
Defined.

Lemma wrap_around_witness :
  idx (snd (next {| idx := Num 1; list_ := [lit "a.mp3"; lit "b.MP3"];
                    effects := [] |})) = Num 0
  /\ idx (snd (prev (snd (next {| idx := Num 1;
                                  list_ := [lit "a.mp3"; lit "b.MP3"];
                                  effects := [] |})))) = Num 1.
Proof.
  destruct (next_and_prev_wrap_around
              {| idx := Num 1; list_ := [lit "a.mp3"; lit "b.MP3"];
                 effects := [] |} eq_refl) as (Hback & _ & Hlast & _).
  split; [exact (Hlast eq_refl)|exact Hback].
Defined.


(** The second entry of [odd_music]. *)
Lemma undecodable_name_witness :
  wf_entries odd_music = true
  /\ nth_error (playlist (map fst odd_music)) 1
     = Some (lit "caf" ++ [0xDCE9] ++ lit ".mp3")
  /\ load (Num 1) {| idx := Num 0;
                     list_ := map utf16 (playlist (map fst odd_music));
                     effects := [] |}
     = (Some URIError,
        {| idx := Num 1;
           list_ := map utf16 (playlist (map fst odd_music));
           effects := [NowText (lit "Now playing: caf" ++ [0xDCE9]
                                ++ lit ".mp3")] |}).
Proof.
  split; [reflexivity|]. split; [reflexivity|].
  destruct (undecodable_name_is_not_played odd_music 1
              (lit "caf" ++ [0xDCE9] ++ lit ".mp3")
              {| idx := Num 0;
                 list_ := map utf16 (playlist (map fst odd_music));
                 effects := [] |}
              eq_refl eq_refl eq_refl eq_refl) as [_ H].
  exact H.
Defined.

(** The player before a playlist has arrived. *)
Lemma empty_playlist_witness :
  next player0
  = (None,
     {| idx := NaN; list_ := [];
        effects := [NowText (lit "Now playing: undefined");
                    Src (lit "undefined"); Play] |}).
Proof.
  destruct (empty_playlist_asks_for_undefined plain_library E_music player0
              eq_refl) as [H _].
  exact H.
Defined.
